(** * productHandler: signal masks and moment products per resolution

    A shallow embedding of [phangsPipeline/productHandler.py]: the
    filename table [_fname_dict], the two mask recipes, the mask writer
    and the product writer of [ProductHandler], as functions in a small
    state-and-exception monad over a file system with an event trace.

    Conventions of the embedding.
    - A Python [dict] is a [gmap string _]; the filename table mixes
      sub-dictionaries and one plain string, hence the type [entry].
    - An argument that may be [None] is an [option].
    - A raised Python exception is [Raise e]; the world reached when it
      is raised is kept, as in Python.
    - Calls on [self._kh] are fields of [KeyHandler]. Calls into
      [os], [os.path], numpy, astropy and spectral_cube are written out
      below where the handler depends on what they do, and are fields
      of [Externals] where it only passes their results on; so are
      [re.sub] and the functions of the sibling module
      [scMaskingRoutines].
    - Resolutions are finite floating point numbers, read as
      rationals; [a > b] on them is the order of the rationals.
    - A run leaves a trace: the log records, the directories made, the
      files removed and the files written, in order. *)

From Stdlib Require Import QArith Ascii String.
From stdpp Require Import gmap strings list fin_maps.
Close Scope Q_scope.

(** ** Data *)

(** A cube voxel: a finite value or a blank. *)
Inductive pixel := Val (q : Q) | NaN.

(** A numpy array: its shape and its elements in row-major order. *)
Record ndarray (A : Type) := NDArray { shape : list nat; flat : list A }.
Arguments NDArray {A} _ _.
Arguments shape {A} _.
Arguments flat {A} _.

(** A FITS header: cards in order, values in their card text. *)
Definition header := list (string * string).

(** A world coordinate system, as the keywords that define it. *)
Definition wcs := list (string * string).

(** The primary HDU of a FITS file. *)
Record fits := Fits { hdu_data : ndarray pixel; hdu_header : header }.

Inductive level := DEBUG | INFO | WARNING | ERROR.

(** What a run does to the outside: log records and file operations. *)
Inductive event :=
| EvLog (lvl : level) (msg : string)
| EvMakedirs (p : string)
| EvRemove (p : string)
| EvWrite (p : string) (f : fits).

(** Regular files and directories are tracked separately, by path. *)
Record world := World {
  files : gmap string fits;
  dirs : gset string;
  trace : list event }.

Inductive exn :=
| Exception (msg : string)
| KeyError (key : string)
| TypeError (msg : string)
| NameError (name : string)
| ValueError (msg : string)
| IOError (p : string).

Inductive outcome (A : Type) := Ret (a : A) | Raise (e : exn).
Arguments Ret {A} _.
Arguments Raise {A} _.

(** ** The monad *)

Definition M (A : Type) : Type := world -> outcome A * world.

Definition ret {A} (a : A) : M A := fun w => (Ret a, w).

Definition raise {A} (e : exn) : M A := fun w => (Raise e, w).

Definition bind {A B} (m : M A) (k : A -> M B) : M B :=
  fun w => match m w with
           | (Ret a, w') => k a w'
           | (Raise e, w') => (Raise e, w')
           end.

Notation "x <- m ;; k" := (bind m (fun x => k))
  (at level 100, m at next level, right associativity).
Notation "m ;;; k" := (bind m (fun _ => k))
  (at level 100, right associativity).

(** [for x in l: body x] *)
Fixpoint for_ {A} (l : list A) (body : A -> M unit) : M unit :=
  match l with
  | [] => ret tt
  | x :: l' => body x ;;; for_ l' body
  end.

(** [for x in l: st = body st x], the loop's local variables in [st] *)
Fixpoint for_fold {A S} (l : list A) (body : S -> A -> M S) (st : S) : M S :=
  match l with
  | [] => ret st
  | x :: l' => st' <- body st x ;; for_fold l' body st'
  end.

Definition emit (e : event) : M unit :=
  fun w => (Ret tt, World (files w) (dirs w) (trace w ++ [e])).

(** [logger.debug], [logger.info], [logger.warning], [logger.error] *)
Definition logger (lvl : level) (msg : string) : M unit := emit (EvLog lvl msg).

(** ** os, os.path *)

(** [os.path.isfile]: [None] is not a path. *)
Definition os_path_isfile (p : option string) : M bool :=
  match p with
  | None => raise (TypeError "stat: path should be string, bytes, os.PathLike or integer, not NoneType")
  | Some p => fun w => (Ret (bool_decide (is_Some (files w !! p))), w)
  end.

Definition os_path_isdir (p : string) : M bool :=
  fun w => (Ret (bool_decide (p ∈ dirs w)), w).

Definition os_makedirs (p : string) : M unit :=
  fun w => (Ret tt, World (files w) ({[p]} ∪ dirs w) (trace w ++ [EvMakedirs p])).

Definition os_remove (p : string) : M unit :=
  fun w => match files w !! p with
           | Some _ => (Ret tt, World (delete p (files w)) (dirs w) (trace w ++ [EvRemove p]))
           | None => (Raise (IOError p), w)
           end.

Fixpoint ends_with_sep (s : string) : bool :=
  match s with
  | EmptyString => false
  | String c EmptyString => bool_decide (c = "/"%char)
  | String _ s' => ends_with_sep s'
  end.

(** [os.path.join(a, b)] of posixpath *)
Definition os_path_join (a b : string) : string :=
  if String.prefix "/" b then b
  else if bool_decide (a = "") || ends_with_sep a then a +:+ b
  else a +:+ "/" +:+ b.

(** ** astropy.io.fits *)

(** [fits.open(path)[0]] *)
Definition fits_open (p : string) : M fits :=
  fun w => match files w !! p with
           | Some f => (Ret f, w)
           | None => (Raise (IOError p), w)
           end.

(** [fits.getdata(path)] *)
Definition fits_getdata (p : string) : M (ndarray pixel) :=
  f <- fits_open p ;; ret (hdu_data f).

(** ** The collaborators *)

(** [self._kh], the key handler. *)
Record KeyHandler := {
  get_postprocess_dir_for_target : string -> string;
  get_product_dir_for_target : string -> string;
  get_res_for_config : string -> option (list Q);
  get_tag_for_res : Q -> string;
  (** [get_cube_filename(target, config, product, ext, casa = False)] *)
  get_cube_filename : string -> string -> string -> string -> string }.

(** The seven product kinds of [task_writting_products]. *)
Inductive kind := Moment0 | Moment1 | Moment2 | Ew | Tmax | Vmax | Vquad.

(** A [SpectralCube]: data, coordinates, an optional boolean mask and
    an optional header. *)
Record SpectralCube := {
  sc_data : ndarray pixel;
  sc_wcs : wcs;
  sc_mask : option (ndarray bool);
  sc_header : option header }.

(** Functions outside the handler whose results it only passes on:
    library functions, and the noise and mask functions of the sibling
    module [scMaskingRoutines]. *)
Record Externals := {
  (** [os.path.abspath], [os.path.basename] *)
  abspath : string -> string;
  basename : string -> string;
  (** [re.sub(pattern, repl, string)] *)
  re_sub : string -> string -> string -> string;
  (** [str(np.round(x, 2))] *)
  str_round2 : Q -> string;
  (** [str(x).strip()] *)
  strip : string -> string;
  (** [scmasking.noise_cube], [scmasking.simple_mask] *)
  noise_cube : ndarray pixel -> ndarray pixel;
  simple_mask : ndarray pixel -> ndarray pixel -> ndarray bool;
  (** [WCS(header)], [wcs.to_header()] *)
  WCS : header -> wcs;
  to_header : wcs -> header;
  (** [key in header], [header[key]], [header[key] = value] of astropy *)
  header_contains : header -> string -> bool;
  header_getitem : header -> string -> string;
  header_setitem : header -> string -> string -> header;
  (** numpy's broadcasting of [np.logical_or] over operands of different shapes *)
  broadcast_logical_or : ndarray bool -> ndarray bool -> outcome (ndarray bool);
  (** the collapse computed by the [scproduct.write_*] function of a
      kind: the map and its error map *)
  product_map : kind -> SpectralCube -> SpectralCube -> fits;
  product_errormap : kind -> SpectralCube -> SpectralCube -> fits }.

(** ** numpy *)

(** [np.logical_or(a, b)]: element by element on equal shapes. *)
Definition np_logical_or (ext : Externals) (a b : ndarray bool) : outcome (ndarray bool) :=
  if bool_decide (shape a = shape b)
  then Ret (NDArray (shape a) (zip_with orb (flat a) (flat b)))
  else broadcast_logical_or ext a b.

(** [mask.astype(int)] *)
Definition astype_int (m : ndarray bool) : ndarray pixel :=
  NDArray (shape m) ((fun b : bool => Val (inject_Z (Z.b2z b))) <$> flat m).

(** The double-quote character of the log messages. *)
Definition dquote : string := String "034"%char EmptyString.

(** Python's [a > b] on finite floats. *)
Definition Qgtb (a b : Q) : bool := negb (Qle_bool a b).

(** ** The filename table *)

(** A value of the table: the sub-dictionary of a resolution tag, or the
    string stored under the key ["res_lowresmask"]. *)
Inductive entry := Sub (d : gmap string string) | Tag (s : string).

(** What [_fname_dict] returns: the empty tuple of its early returns, or
    the table. *)
Inductive fname_result := EmptyTuple | Table (d : gmap string entry).

Section ProductHandler.

Context (kh : KeyHandler) (ext : Externals).

(** The local variables of the loop of [_fname_dict]. *)
Record fname_state := FnameState {
  fname_dict : gmap string entry;
  lowest_res : option Q;
  lowest_res_tag : string }.

(** The sub-dictionary built for one resolution tag: the cube path and
    the four output paths. *)
Definition res_subdict (indir outdir cube_filename res_tag : string) : gmap string string :=
  let image_basename :=
    re_sub ext ("_pbcorr_trimmed_k_res" +:+ res_tag +:+ "\.fits$") "" (basename ext cube_filename) in
  foldl (fun d tag =>
           <[tag := os_path_join outdir (image_basename +:+ "_" +:+ tag +:+ "_res" +:+ res_tag +:+ ".fits")]> d)
        (<["pbcorr_trimmed_k" := os_path_join indir cube_filename]> ∅)
        ["hybridmask"; "signalmask"; "broad"; "strict"].

(** One turn of [for this_res in res_list] in [_fname_dict]. *)
Definition fname_step (target config product indir outdir : string)
    (st : fname_state) (this_res : Q) : M fname_state :=
  let res_tag := get_tag_for_res kh this_res in
  let cube_filename :=
    get_cube_filename kh target config product ("pbcorr_trimmed_k" +:+ "_res" +:+ res_tag) in
  present <- os_path_isfile (Some (os_path_join indir cube_filename)) ;;
  if present : bool then
    let d := <[res_tag := Sub (res_subdict indir outdir cube_filename res_tag)]> (fname_dict st) in
    match lowest_res st with
    | None => ret (FnameState d (Some this_res) res_tag)
    | Some lowest =>
        if Qgtb this_res lowest
        then ret (FnameState d (Some this_res) res_tag)
        else ret (FnameState d (lowest_res st) (lowest_res_tag st))
    end
  else
    logger WARNING ("Cube with tag " +:+ res_tag +:+ " at " +:+ str_round2 ext this_res
                    +:+ " arcsec resolution was not found: " +:+ dquote +:+ os_path_join indir cube_filename +:+ dquote) ;;;
    ret st.

Definition _fname_dict (target config product : option string) (res_lowresmask : string)
    : M fname_result :=
  match target, product, config with
  | None, _, _ => logger ERROR "Need a target." ;;; ret EmptyTuple
  | Some _, None, _ => logger ERROR "Need a product." ;;; ret EmptyTuple
  | Some _, Some _, None => logger ERROR "Need a config." ;;; ret EmptyTuple
  | Some target, Some product, Some config =>
      let indir := abspath ext (get_postprocess_dir_for_target kh target) in
      logger DEBUG ("indir: " +:+ indir) ;;;
      let outdir := abspath ext (get_product_dir_for_target kh target) in
      logger DEBUG ("outdir: " +:+ outdir) ;;;
      isdir <- os_path_isdir outdir ;;
      (if isdir : bool then ret tt else os_makedirs outdir) ;;;
      match get_res_for_config kh config with
      | None =>
          let msg := "No target resolutions found for target " +:+ target +:+ " and config" +:+ config in
          logger ERROR msg ;;; raise (Exception msg)
      | Some res_list =>
          st <- for_fold res_list (fname_step target config product indir outdir)
                  (FnameState ∅ None "") ;;
          if bool_decide (res_lowresmask ≠ "") && bool_decide (is_Some (fname_dict st !! res_lowresmask))
          then ret (Table (<["res_lowresmask" := Tag res_lowresmask]> (fname_dict st)))
          else ret (Table (<["res_lowresmask" := Tag (lowest_res_tag st)]> (fname_dict st)))
      end
  end.

(** *** Reading the table *)

(** [fname_dict[key]] *)
Definition getitem (r : fname_result) (key : string) : M entry :=
  match r with
  | EmptyTuple => raise (TypeError "tuple indices must be integers or slices, not str")
  | Table d =>
      match d !! key with
      | Some e => ret e
      | None => raise (KeyError key)
      end
  end.

(** [e[key]] for a value [e] of the table *)
Definition subitem (e : entry) (key : string) : M string :=
  match e with
  | Tag _ => raise (TypeError "string indices must be integers")
  | Sub d =>
      match d !! key with
      | Some v => ret v
      | None => raise (KeyError key)
      end
  end.

(** [key in fname_dict] *)
Definition contains (r : fname_result) (key : string) : bool :=
  match r with
  | EmptyTuple => false
  | Table d => bool_decide (is_Some (d !! key))
  end.

(** ** recipe_building_low_resolution_mask *)

(** The three argument checks that open both recipes. *)
Definition check_input (target product config : option string) : M (string * string * string) :=
  match target with
  | None => logger ERROR "Please input a target." ;;; raise (Exception "Please input a target.")
  | Some t =>
      match product with
      | None => logger ERROR "Please input a product." ;;; raise (Exception "Please input a product.")
      | Some p =>
          match config with
          | None => logger ERROR "Please input a config." ;;; raise (Exception "Please input a config.")
          | Some c => ret (t, p, c)
          end
      end
  end.

(** The default of the keyword argument [res_lowresmask] of the recipe. *)
Definition default_res_lowresmask : string := "10p72".

(** The recipe once it has the table: the cube of the tag stored under
    ["res_lowresmask"] is read and thresholded against its noise. *)
Definition lowres_from_table (fname_dict : fname_result) : M (ndarray bool * string) :=
  e <- getitem fname_dict "res_lowresmask" ;;
  match e with
  | Sub _ => raise (TypeError "unhashable type: 'dict'")
  | Tag lowres_cube_tag =>
      e' <- getitem fname_dict lowres_cube_tag ;;
      path <- subitem e' "pbcorr_trimmed_k" ;;
      lowres_cube_data <- fits_getdata path ;;
      let lowres_cube_noise := noise_cube ext lowres_cube_data in
      let lowres_cube_mask := simple_mask ext lowres_cube_data lowres_cube_noise in
      ret (lowres_cube_mask, lowres_cube_tag)
  end.

(** [res_lowresmask = None] is a call that leaves the keyword out. *)
Definition recipe_building_low_resolution_mask
    (target product config : option string) (res_lowresmask : option string)
    : M (ndarray bool * string) :=
  let res_lowresmask := default default_res_lowresmask res_lowresmask in
  check_input target product config ;;;
  fname_dict <- _fname_dict target config product res_lowresmask ;;
  lowres_from_table fname_dict.

(** ** task_writing_mask *)

(** The [comments] argument: one string or a list of strings. *)
Inductive comments := Scalar (s : string) | Lines (l : list string).

(** [SpectralCube.write(outfile, format = 'fits')]: refuses an existing file. *)
Definition fits_of_cube (c : SpectralCube) : fits :=
  Fits (sc_data c) (match sc_header c with Some h => h | None => to_header ext (sc_wcs c) end).

Definition spectral_cube_write (c : SpectralCube) (outfile : string) : M unit :=
  fun w => match files w !! outfile with
           | Some _ => (Raise (IOError outfile), w)
           | None => (Ret tt, World (<[outfile := fits_of_cube c]> (files w)) (dirs w)
                                    (trace w ++ [EvWrite outfile (fits_of_cube c)]))
           end.

(** The header written with a mask. *)
Definition mask_header (w : wcs) (hdr : option header) (cmts : option comments) : header :=
  let header_to_write := to_header ext w in
  let header_to_write :=
    match hdr with
    | Some h =>
        foldl (fun hw key => if header_contains ext h key
                             then header_setitem ext hw key (header_getitem ext h key) else hw)
              header_to_write ["BMAJ"; "BMIN"; "BPA"]
    | None => header_to_write
    end in
  match cmts with
  | Some c =>
      let lines := match c with Scalar s => [s] | Lines l => l end in
      let header_to_write := header_setitem ext header_to_write "COMMENT" "" in
      let header_to_write :=
        foldl (fun hw comment => header_setitem ext hw "COMMENT" (strip ext comment))
              header_to_write lines in
      header_setitem ext header_to_write "COMMENT" ""
  | None => header_to_write
  end.

(** The file that [task_writing_mask] writes. *)
Definition mask_file (m : ndarray bool) (wc : wcs) (hdr : option header)
    (cm : option comments) : fits :=
  Fits (astype_int m) (mask_header wc hdr cm).

Definition task_writing_mask (mask : option (ndarray bool)) (w : option wcs)
    (hdr : option header) (cmts : option comments) (outfile : option string) : M unit :=
  match mask, w, outfile with
  | Some mask, Some w, Some outfile =>
      old <- os_path_isfile (Some outfile) ;;
      (if old : bool then os_remove outfile else ret tt) ;;;
      let header_to_write := mask_header w hdr cmts in
      let mask_spectralcube :=
        {| sc_data := astype_int mask; sc_wcs := w; sc_mask := None;
           sc_header := Some header_to_write |} in
      spectral_cube_write mask_spectralcube outfile
  | _, _, _ => ret tt
  end.

(** ** task_writting_products *)

(** Writing a file over whatever is at the path. *)
Definition put_file (p : string) (f : fits) : M unit :=
  fun w => (Ret tt, World (<[p := f]> (files w)) (dirs w) (trace w ++ [EvWrite p f])).

(** Modelled from the spec: the functions [scproduct.write_moment0],
    [write_moment1], [write_moment2], [write_ew], [write_tmax],
    [write_vmax] and [write_vquad] of [scProductRoutines] are missing
    from the sources. Per the spec each computes its kind's map from the
    masked cube and the masked noise cube and writes the output file
    and, when an error file is asked for, the error file. *)
Definition scproduct_write (k : kind) (cube rms : SpectralCube)
    (outfile : string) (errorfile : option string) : M unit :=
  put_file outfile (product_map ext k cube rms) ;;;
  match errorfile with
  | Some ef => put_file ef (product_errormap ext k cube rms)
  | None => ret tt
  end.

(** An element of [process_list]. *)
Record process_dict := ProcessDict {
  pd_outfile : string;
  pd_errorfile : string;
  pd_func : kind;
  pd_unit : string }.

(** The keyword arguments [do_moment0] ... [do_errormaps]. *)
Record product_flags := ProductFlags {
  do_moment0 : bool; do_moment1 : bool; do_moment2 : bool; do_ew : bool;
  do_tmax : bool; do_vmax : bool; do_vquad : bool; do_errormaps : bool }.

(** Their defaults: everything on. *)
Definition default_flags : product_flags :=
  ProductFlags true true true true true true true true.

Definition process_entry (commonoutfitsname sfx : string) (k : kind) (u : string) : process_dict :=
  ProcessDict (commonoutfitsname +:+ "_" +:+ sfx +:+ ".fits")
              (commonoutfitsname +:+ "_e" +:+ sfx +:+ ".fits") k u.

Definition process_list (commonoutfitsname : string) (fl : product_flags) : list process_dict :=
  (if do_moment0 fl then [process_entry commonoutfitsname "mom0" Moment0 "K km / s"] else []) ++
  (if do_moment1 fl then [process_entry commonoutfitsname "mom1" Moment1 "km / s"] else []) ++
  (if do_moment2 fl then [process_entry commonoutfitsname "mom2" Moment2 "km / s"] else []) ++
  (if do_ew fl then [process_entry commonoutfitsname "ew" Ew "km / s"] else []) ++
  (if do_tmax fl then [process_entry commonoutfitsname "tmax" Tmax "K"] else []) ++
  (if do_vmax fl then [process_entry commonoutfitsname "vmax" Vmax "km / s"] else []) ++
  (if do_vquad fl then [process_entry commonoutfitsname "vquad" Vquad "km / s"] else []).

(** One turn of the loop under [# delete old files]. *)
Definition delete_old (fl : product_flags) (pd : process_dict) : M unit :=
  let outfile := pd_outfile pd in
  let errorfile := if do_errormaps fl then Some (pd_errorfile pd) else None in
  old <- os_path_isfile (Some outfile) ;;
  (if old : bool
   then os_remove outfile ;;; logger INFO ("Deleting old file " +:+ dquote +:+ outfile +:+ dquote)
   else ret tt) ;;;
  old_error <- os_path_isfile errorfile ;;
  if old_error : bool
  then match errorfile with
       | Some ef => os_remove ef ;;; logger INFO ("Deleting old file " +:+ dquote +:+ ef +:+ dquote)
       | None => raise (TypeError "remove: path should be string, bytes or os.PathLike, not NoneType")
       end
  else ret tt.

(** One turn of the loop that makes the products. *)
Definition produce (fl : product_flags) (cube rms : SpectralCube) (pd : process_dict) : M unit :=
  let processfunction := scproduct_write (pd_func pd) in
  let outfile := pd_outfile pd in
  let errorfile := if do_errormaps fl then Some (pd_errorfile pd) else None in
  logger INFO ("Producing " +:+ dquote +:+ outfile +:+ dquote) ;;;
  processfunction cube rms outfile errorfile.

Definition task_writting_products (cube rms : SpectralCube) (commonoutfitsfile : string)
    (fl : product_flags) : M unit :=
  let commonoutfitsname := re_sub ext "\.fits$" "" commonoutfitsfile in
  let process_list := process_list commonoutfitsname fl in
  for_ process_list (delete_old fl) ;;;
  for_ process_list (produce fl cube rms).

(** ** recipe_building_all_resolution_masks *)

(** Reading a name that no enclosing scope binds. *)
Definition unbound_name {A} (name : string) : M A :=
  raise (NameError ("name '" +:+ name +:+ "' is not defined")).

(** [np.logical_or] inside the recipe: its error is raised. *)
Definition lift {A} (o : outcome A) : M A := fun w => (o, w).

(** [SpectralCube(data = d, wcs = w, mask = BooleanArrayMask(m, wcs = w))] *)
Definition masked_cube (d : ndarray pixel) (w : wcs) (m : ndarray bool) : SpectralCube :=
  {| sc_data := d; sc_wcs := w; sc_mask := Some m; sc_header := None |}.

(** One turn of [for this_res in res_list] in the recipe. *)
Definition all_resolution_step (fname_dict : fname_result)
    (lowres_cube_mask : ndarray bool) (lowres_cube_tag : string) (this_res : Q) : M unit :=
  let res_tag := get_tag_for_res kh this_res in
  if contains fname_dict res_tag then
    e <- getitem fname_dict res_tag ;;
    path <- subitem e "pbcorr_trimmed_k" ;;
    hdu <- fits_open path ;;
    let cube_data := hdu_data hdu in
    let cube_header := hdu_header hdu in
    let cube_wcs := WCS ext cube_header in
    let cube_noise := noise_cube ext cube_data in
    let cube_signal_mask := simple_mask ext cube_data cube_noise in
    cube_hybrid_mask <- lift (np_logical_or ext cube_signal_mask lowres_cube_mask) ;;
    hybrid_out <- subitem e "hybridmask" ;;
    task_writing_mask (Some cube_hybrid_mask) (Some cube_wcs) (Some cube_header)
      (Some (Lines ["This hybridmask is made from the OR combination of the signalmask and lowresmask.";
                    "This signalmask is made with the " +:+ res_tag +:+ "arcsec resolution cube.";
                    "This lowresmask is made with the " +:+ lowres_cube_tag +:+ "arcsec resolution cube."]))
      (Some hybrid_out) ;;;
    signal_out <- subitem e "signalmask" ;;
    task_writing_mask (Some cube_signal_mask) (Some cube_wcs) (Some cube_header)
      (Some (Lines ["This signalmask is made with the " +:+ res_tag +:+ "arcsec resolution cube."]))
      (Some signal_out) ;;;
    let broadcube_data := masked_cube cube_data cube_wcs cube_hybrid_mask in
    let broadcube_noise := masked_cube cube_noise cube_wcs cube_hybrid_mask in
    let strictcube_data := masked_cube cube_data cube_wcs cube_signal_mask in
    let strictcube_noise := masked_cube cube_noise cube_wcs cube_signal_mask in
    broad_out <- subitem e "broad" ;;
    task_writting_products broadcube_data broadcube_noise broad_out default_flags ;;;
    strict_out <- subitem e "strict" ;;
    task_writting_products strictcube_data strictcube_noise strict_out default_flags
  else ret tt.

Definition recipe_building_all_resolution_masks
    (target product config : option string)
    (lowres_cube_mask : option (ndarray bool)) (lowres_cube_tag : option string) : M unit :=
  checked <- check_input target product config ;;
  lowres <-
    match lowres_cube_mask, lowres_cube_tag with
    | Some m, Some t => ret (m, t)
    | _, _ =>
        (* the arguments of this call are read from [this_target],
           [this_product] and [this_config], which the method does not bind *)
        this_target <- unbound_name "this_target" ;;
        this_product <- unbound_name "this_product" ;;
        this_config <- unbound_name "this_config" ;;
        recipe_building_low_resolution_mask this_target this_product this_config None
    end ;;
  let '(lowres_cube_mask, lowres_cube_tag) := lowres in
  fname_dict <- _fname_dict target config product "" ;;
  match get_res_for_config kh (checked.2) with
  | None => raise (TypeError "'NoneType' object is not iterable")
  | Some res_list =>
      for_ res_list (all_resolution_step fname_dict lowres_cube_mask lowres_cube_tag)
  end.

(** ** Names used in the statements *)

(** The directories, the cube file and the cube path that [_fname_dict]
    computes for a target and a resolution tag. *)
Definition indir_of (target : string) : string :=
  abspath ext (get_postprocess_dir_for_target kh target).

Definition outdir_of (target : string) : string :=
  abspath ext (get_product_dir_for_target kh target).

Definition cube_filename_of (target config product res_tag : string) : string :=
  get_cube_filename kh target config product ("pbcorr_trimmed_k" +:+ "_res" +:+ res_tag).

Definition cube_path (target config product res_tag : string) : string :=
  os_path_join (indir_of target) (cube_filename_of target config product res_tag).

(** The cube of a resolution is a regular file. *)
Definition cube_present (fs : gmap string fits) (target config product : string) (r : Q) : bool :=
  bool_decide (is_Some (fs !! cube_path target config product (get_tag_for_res kh r))).

(** The sub-dictionary of a tag. *)
Definition table_entry (target config product res_tag : string) : gmap string string :=
  res_subdict (indir_of target) (outdir_of target)
    (cube_filename_of target config product res_tag) res_tag.

(** The warning logged for a resolution without cube. *)
Definition warning_for (target config product : string) (r : Q) : event :=
  EvLog WARNING ("Cube with tag " +:+ get_tag_for_res kh r +:+ " at " +:+ str_round2 ext r
                 +:+ " arcsec resolution was not found: " +:+ dquote
                 +:+ cube_path target config product (get_tag_for_res kh r) +:+ dquote).

Definition warnings (fs : gmap string fits) (target config product : string) (l : list Q)
    : list event :=
  warning_for target config product
    <$> List.filter (fun r => negb (cube_present fs target config product r)) l.

(** The state change of one turn of the loop of [_fname_dict], which
    reads the file system and logs but writes nothing. *)
Definition fname_pure (fs : gmap string fits) (target config product : string)
    (st : fname_state) (this_res : Q) : fname_state :=
  let res_tag := get_tag_for_res kh this_res in
  if cube_present fs target config product this_res then
    let d := <[res_tag := Sub (table_entry target config product res_tag)]> (fname_dict st) in
    match lowest_res st with
    | None => FnameState d (Some this_res) res_tag
    | Some lowest =>
        if Qgtb this_res lowest
        then FnameState d (Some this_res) res_tag
        else FnameState d (lowest_res st) (lowest_res_tag st)
    end
  else st.

Definition fname_scan (fs : gmap string fits) (target config product : string) (l : list Q)
    : fname_state :=
  foldl (fname_pure fs target config product) (FnameState ∅ None "") l.

(** The table that [_fname_dict] returns over the files [fs]. *)
Definition fname_table (fs : gmap string fits) (target config product res_lowresmask : string)
    (l : list Q) : gmap string entry :=
  let st := fname_scan fs target config product l in
  if bool_decide (res_lowresmask ≠ "") && bool_decide (is_Some (fname_dict st !! res_lowresmask))
  then <["res_lowresmask" := Tag res_lowresmask]> (fname_dict st)
  else <["res_lowresmask" := Tag (lowest_res_tag st)]> (fname_dict st).

(** The value that [_fname_dict] stores under the reserved key. *)
Definition selected_tag (fs : gmap string fits) (t c p o : string) (l : list Q) : string :=
  let st := fname_scan fs t c p l in
  if bool_decide (o ≠ "") && bool_decide (is_Some (fname_dict st !! o))
  then o else lowest_res_tag st.

(** The override names a cube on disk: it is not empty and it is the
    tag of a catalog resolution whose cube is present. *)
Definition override_applies (fs : gmap string fits) (t c p : string) (l : list Q)
    (o : string) : Prop :=
  o <> "" /\ exists r, r ∈ l /\ get_tag_for_res kh r = o /\ cube_present fs t c p r = true.

(** [m] is a coarsest resolution with a cube on disk: present, and no
    present resolution of the catalog is numerically larger. *)
Definition coarsest_present (fs : gmap string fits) (t c p : string) (l : list Q)
    (m : Q) : Prop :=
  m ∈ l /\ cube_present fs t c p m = true
  /\ forall r, r ∈ l -> cube_present fs t c p r = true -> Qle r m.

(** The world after [_fname_dict]: two debug records, the product
    directory made if it was missing, a warning per missing cube. *)
Definition fname_world (w : world) (target config product : string) (l : list Q) : world :=
  World (files w)
        (if bool_decide (outdir_of target ∈ dirs w) then dirs w else {[outdir_of target]} ∪ dirs w)
        (trace w ++ [EvLog DEBUG ("indir: " +:+ indir_of target);
                     EvLog DEBUG ("outdir: " +:+ outdir_of target)]
                 ++ (if bool_decide (outdir_of target ∈ dirs w) then []
                     else [EvMakedirs (outdir_of target)])
                 ++ warnings (files w) target config product l).

(** An output path of a tag: [which] is one of ["hybridmask"],
    ["signalmask"], ["broad"], ["strict"]. *)
Definition out_path (target config product res_tag which : string) : string :=
  let image_basename :=
    re_sub ext ("_pbcorr_trimmed_k_res" +:+ res_tag +:+ "\.fits$") ""
      (basename ext (cube_filename_of target config product res_tag)) in
  os_path_join (outdir_of target)
    (image_basename +:+ "_" +:+ which +:+ "_res" +:+ res_tag +:+ ".fits").

(** The output and error files of a process list, in order. *)
Definition process_paths (pl : list process_dict) : list string :=
  pl ≫= (fun pd => [pd_outfile pd; pd_errorfile pd]).

(** The fourteen files of a product family. *)
Definition product_paths (commonoutfitsfile : string) : list string :=
  process_paths (process_list (re_sub ext "\.fits$" "" commonoutfitsfile) default_flags).

(** Everything the all-resolutions recipe writes for a tag, in order. *)
Definition outputs (target config product res_tag : string) : list string :=
  [out_path target config product res_tag "hybridmask";
   out_path target config product res_tag "signalmask"]
  ++ product_paths (out_path target config product res_tag "broad")
  ++ product_paths (out_path target config product res_tag "strict").

(** The paths written by a run, from its events. *)
Definition written (evs : list event) : list string :=
  omap (fun e => match e with EvWrite q _ => Some q | _ => None end) evs.

(** The files outside [P] are the same in [fs] and [fs']. *)
Definition frame (P : list string) (fs fs' : gmap string fits) : Prop :=
  forall q, q ∉ P -> fs' !! q = fs !! q.

(** The signal mask of a cube file and its union with a second mask. *)
Definition signal_of (f : fits) : ndarray bool :=
  simple_mask ext (hdu_data f) (noise_cube ext (hdu_data f)).

Definition union_mask (a b : ndarray bool) : ndarray bool :=
  NDArray (shape a) (zip_with orb (flat a) (flat b)).

(** The comment lines of the two masks. *)
Definition hybrid_comments (res_tag lowres_cube_tag : string) : comments :=
  Lines ["This hybridmask is made from the OR combination of the signalmask and lowresmask.";
         "This signalmask is made with the " +:+ res_tag +:+ "arcsec resolution cube.";
         "This lowresmask is made with the " +:+ lowres_cube_tag +:+ "arcsec resolution cube."].

Definition signal_comments (res_tag : string) : comments :=
  Lines ["This signalmask is made with the " +:+ res_tag +:+ "arcsec resolution cube."].

End ProductHandler.

(** ** loop_products_making *)

(** What [loop_products_making] uses beside the recipes: the target
    list, the product list and the looper that the handler inherits
    from [handlerTemplate], and the directory maker of the key
    handler. *)
Record HandlerTemplate := {
  get_targets : list string;
  get_all_products : list string;
  (** [self.looper(do_targets = True, do_products = True, do_configs = True)]:
      the triples (target, product, config) it yields, in order *)
  looper : list (string * string * string);
  (** [self._kh.make_missing_directories(product = True)] *)
  make_missing_directories : M unit }.

Section Orchestrator.

Context (kh : KeyHandler) (ext : Externals) (ht : HandlerTemplate).

(** One turn of the loop over the looper: the low-resolution mask,
    then the masks and products of every resolution. *)
Definition process_triple (this : string * string * string) : M unit :=
  let '(this_target, this_product, this_config) := this in
  lowres <- recipe_building_low_resolution_mask kh ext
              (Some this_target) (Some this_product) (Some this_config) None ;;
  let '(lowres_cube_mask, lowres_cube_tag) := lowres in
  recipe_building_all_resolution_masks kh ext
    (Some this_target) (Some this_product) (Some this_config)
    (Some lowres_cube_mask) (Some lowres_cube_tag).

Definition loop_products_making (make_directories : bool) : M unit :=
  if bool_decide (length (get_targets ht) = 0%nat)
  then logger ERROR "Need a target list."
  else if bool_decide (length (get_all_products ht) = 0%nat)
  then logger ERROR "Need a products list."
  else
    (if make_directories then make_missing_directories ht else ret tt) ;;;
    for_ (looper ht) process_triple.

End Orchestrator.

(** ** More names used in the statements *)

(** The paths removed by a run, from its events. *)
Definition removed (evs : list event) : list string :=
  omap (fun e => match e with EvRemove q => Some q | _ => None end) evs.

(** The keys of the sub-dictionary of a resolution tag. *)
Definition five_keys : gset string :=
  {["pbcorr_trimmed_k"; "hybridmask"; "signalmask"; "broad"; "strict"]}.

(** The kinds in the order of [process_list], the name each puts in
    its file names, its unit and its toggle. *)
Definition all_kinds : list kind := [Moment0; Moment1; Moment2; Ew; Tmax; Vmax; Vquad].

Definition kind_suffix (k : kind) : string :=
  match k with
  | Moment0 => "mom0" | Moment1 => "mom1" | Moment2 => "mom2" | Ew => "ew"
  | Tmax => "tmax" | Vmax => "vmax" | Vquad => "vquad"
  end.

Definition kind_unit (k : kind) : string :=
  match k with
  | Moment0 => "K km / s" | Tmax => "K" | _ => "km / s"
  end.

Definition kind_enabled (fl : product_flags) (k : kind) : bool :=
  match k with
  | Moment0 => do_moment0 fl | Moment1 => do_moment1 fl | Moment2 => do_moment2 fl
  | Ew => do_ew fl | Tmax => do_tmax fl | Vmax => do_vmax fl | Vquad => do_vquad fl
  end.

Definition kind_entry (commonoutfitsname : string) (k : kind) : process_dict :=
  process_entry commonoutfitsname (kind_suffix k) k (kind_unit k).

(** ** A concrete catalog and library, for running the handler *)

(** Three resolutions, 5, 10.72 and 20 arcsec, for the config [X]. *)
Definition demo_tag (r : Q) : string :=
  if Qeq_bool r (Qmake 5 1) then "5p00"
  else if Qeq_bool r (Qmake 1072 100) then "10p72"
  else if Qeq_bool r (Qmake 20 1) then "20p00"
  else "other".

Definition demo_kh : KeyHandler := {|
  get_postprocess_dir_for_target := fun t => "/data/postprocess/" +:+ t;
  get_product_dir_for_target := fun t => "/data/product/" +:+ t;
  get_res_for_config := fun c =>
    if String.eqb c "X" then Some [Qmake 5 1; Qmake 1072 100; Qmake 20 1] else None;
  get_tag_for_res := demo_tag;
  get_cube_filename := fun t c p e => t +:+ "_" +:+ c +:+ "_" +:+ p +:+ "_" +:+ e +:+ ".fits" |}.

(** The literal suffix that a pattern of the handler stands for. *)
Fixpoint unescape (pat : string) : string :=
  match pat with
  | EmptyString => EmptyString
  | String c rest =>
      if Ascii.eqb c "\"%char then
        match rest with
        | String c' rest' => String c' (unescape rest')
        | EmptyString => EmptyString
        end
      else if Ascii.eqb c "$"%char && String.eqb rest "" then EmptyString
      else String c (unescape rest)
  end.

(** [re.sub] on the two patterns of the handler: a literal suffix. *)
Definition demo_re_sub (pat repl s : string) : string :=
  let suf := unescape pat in
  let n := (String.length s - String.length suf)%nat in
  if (String.length suf <=? String.length s)%nat
     && String.eqb (String.substring n (String.length suf) s) suf
  then String.substring 0 n s +:+ repl
  else s.

Definition pixel_gt (a b : pixel) : bool :=
  match a, b with
  | Val x, Val y => Qgtb x y
  | _, _ => false
  end.

Definition demo_ext : Externals := {|
  abspath := fun p => p;
  basename := fun p => p;
  re_sub := demo_re_sub;
  str_round2 := demo_tag;
  strip := fun s => s;
  noise_cube := fun c => NDArray (shape c) ((fun _ => Val (Qmake 5 1)) <$> flat c);
  simple_mask := fun c n => NDArray (shape c) (zip_with pixel_gt (flat c) (flat n));
  WCS := fun h => h;
  to_header := fun w => w;
  header_contains := fun h k => existsb (fun kv => String.eqb kv.1 k) h;
  header_getitem := fun h k => default "" (snd <$> List.find (fun kv => String.eqb kv.1 k) h);
  header_setitem := fun h k v => h ++ [(k, v)];
  broadcast_logical_or := fun _ _ => Raise (ValueError "operands could not be broadcast together");
  product_map := fun k c _ => Fits (sc_data c) [];
  product_errormap := fun k _ r => Fits (sc_data r) [] |}.

Definition demo_cube (a b : Z) : fits :=
  Fits (NDArray [1; 1; 2]%nat [Val (inject_Z a); Val (inject_Z b)]) [("BMAJ", "1.0")].

Definition demo_cube_path (tag : string) : string :=
  "/data/postprocess/T/T_X_P_pbcorr_trimmed_k_res" +:+ tag +:+ ".fits".

(** All three cubes on disk. *)
Definition demo_world : world := {|
  files := <[demo_cube_path "5p00" := demo_cube 0 9]>
           (<[demo_cube_path "10p72" := demo_cube 7 0]>
           (<[demo_cube_path "20p00" := demo_cube 0 0]> ∅));
  dirs := ∅;
  trace := [] |}.

(** The cube at 10.72 arcsec missing. *)
Definition demo_world_gap : world := {|
  files := <[demo_cube_path "5p00" := demo_cube 0 9]>
           (<[demo_cube_path "20p00" := demo_cube 7 0]> ∅);
  dirs := ∅;
  trace := [] |}.

(** The catalog list of the config [X]. *)
Definition demo_res : list Q := [Qmake 5 1; Qmake 1072 100; Qmake 20 1].

(** A low-resolution mask on the grid of the cubes. *)
Definition demo_lowres : ndarray bool := NDArray [1; 1; 2]%nat [true; false].

(** A masked cube and its noise, as the recipe hands them to the
    product writer. *)
Definition demo_masked : SpectralCube :=
  masked_cube (hdu_data (demo_cube 0 9)) [] demo_lowres.

Definition demo_masked_noise : SpectralCube :=
  masked_cube (noise_cube demo_ext (hdu_data (demo_cube 0 9))) [] demo_lowres.

(** Every kind on, the error maps off. *)
Definition demo_flags_no_errormaps : product_flags :=
  ProductFlags true true true true true true true false.

(** Every kind off; and every kind on but the first moment. *)
Definition demo_flags_nothing : product_flags :=
  ProductFlags false false false false false false false false.

Definition demo_flags_no_moment1 : product_flags :=
  ProductFlags true false true true true true true true.

(** A handler with one target, one product and two configs, the
    second without catalog list; and one without product. *)
Definition demo_ht : HandlerTemplate := {|
  get_targets := ["T"];
  get_all_products := ["P"];
  looper := [("T", "P", "X"); ("T", "P", "Y")];
  make_missing_directories := os_makedirs "/data/product" |}.

Definition demo_ht_no_product : HandlerTemplate := {|
  get_targets := ["T"];
  get_all_products := [];
  looper := [];
  make_missing_directories := os_makedirs "/data/product" |}.


(** No cube at all. *)
Definition demo_world_empty : world := {| files := ∅; dirs := ∅; trace := [] |}.


(** * Properties *)

Section Theory.

Context (kh : KeyHandler) (ext : Externals).

(** ** Running the monad *)

Lemma bind_ret {A B} (m : M A) (k : A -> M B) w a w' :
  m w = (Ret a, w') -> bind m k w = k a w'.
Proof. unfold bind. intros ->. reflexivity. Qed.

Lemma bind_raise {A B} (m : M A) (k : A -> M B) w e w' :
  m w = (Raise e, w') -> bind m k w = (Raise e, w').
Proof. unfold bind. intros ->. reflexivity. Qed.

Lemma world_eta w : World (files w) (dirs w) (trace w) = w.
Proof. destruct w; reflexivity. Qed.

(** ** The loop of the filename table *)

Lemma fname_step_run t c p st r w :
  fname_step kh ext t c p (indir_of kh ext t) (outdir_of kh ext t) st r w
  = (Ret (fname_pure kh ext (files w) t c p st r),
     World (files w) (dirs w)
           (trace w ++ warnings kh ext (files w) t c p [r])).
Proof.
  unfold fname_step, fname_pure, warnings, cube_present, bind, os_path_isfile. cbn.
  fold (cube_filename_of kh t c p (get_tag_for_res kh r)).
  fold (cube_path kh ext t c p (get_tag_for_res kh r)).
  destruct (bool_decide _) eqn:E; cbn.
  - rewrite app_nil_r, world_eta.
    destruct (lowest_res st); [destruct (Qgtb _ _) |]; reflexivity.
  - reflexivity.
Qed.

Lemma warnings_app fs t c p l1 l2 :
  warnings kh ext fs t c p (l1 ++ l2)
  = warnings kh ext fs t c p l1 ++ warnings kh ext fs t c p l2.
Proof. unfold warnings. rewrite List.filter_app, fmap_app. reflexivity. Qed.

Lemma fname_loop_run t c p l : forall st w,
  for_fold l (fname_step kh ext t c p (indir_of kh ext t) (outdir_of kh ext t)) st w
  = (Ret (foldl (fname_pure kh ext (files w) t c p) st l),
     World (files w) (dirs w) (trace w ++ warnings kh ext (files w) t c p l)).
Proof.
  induction l as [|r l IH]; intros st w.
  - cbn. unfold ret, warnings. cbn. rewrite app_nil_r, world_eta. reflexivity.
  - cbn [for_fold foldl].
    rewrite (bind_ret _ _ _ _ _ (fname_step_run t c p st r w)).
    rewrite IH. cbn [files dirs trace].
    rewrite <- app_assoc, <- warnings_app. reflexivity.
Qed.

(** [_fname_dict] with its three arguments set and a catalog answer
    returns [fname_table] and changes no file. *)
Lemma fname_dict_run t c p o l w :
  get_res_for_config kh c = Some l ->
  _fname_dict kh ext (Some t) (Some c) (Some p) o w
  = (Ret (Table (fname_table kh ext (files w) t c p o l)), fname_world kh ext w t c p l).
Proof.
  intros Hl. unfold _fname_dict, fname_table, fname_world, fname_scan.
  fold (indir_of kh ext t). fold (outdir_of kh ext t). rewrite Hl.
  unfold bind at 1. cbn [logger emit].
  unfold bind at 1. cbn [logger emit files dirs trace].
  unfold bind at 1. unfold os_path_isdir at 1. cbn [files dirs trace].
  destruct (bool_decide (outdir_of kh ext t ∈ dirs w)) eqn:E.
  - unfold bind at 1. unfold ret at 1.
    unfold bind at 1. rewrite fname_loop_run. cbn [files dirs trace].
    rewrite <- !app_assoc. cbn [app].
    destruct (_ && _); reflexivity.
  - unfold bind at 1. unfold os_makedirs at 1. cbn [files dirs trace].
    unfold bind at 1. rewrite fname_loop_run. cbn [files dirs trace].
    rewrite <- !app_assoc. cbn [app].
    destruct (_ && _); reflexivity.
Qed.

(** ** The scan behind the table *)

Section Scan.

Variables (fs : gmap string fits) (t c p : string).

Let tag := get_tag_for_res kh.
Let present := cube_present kh ext fs t c p.
Let scan := foldl (fname_pure kh ext fs t c p).

Lemma present_tag r :
  present r = bool_decide (is_Some (fs !! cube_path kh ext t c p (tag r))).
Proof. reflexivity. Qed.

(** The keys of the scanned dictionary: the tags of the present cubes. *)
Lemma scan_lookup l : forall st k,
  fname_dict (scan st l) !! k
  = if bool_decide (k ∈ tag <$> l) && bool_decide (is_Some (fs !! cube_path kh ext t c p k))
    then Some (Sub (table_entry kh ext t c p k))
    else fname_dict st !! k.
Proof.
  induction l as [|r l IH]; intros st k; [reflexivity|].
  subst scan. cbn [foldl]. rewrite IH. clear IH.
  rewrite fmap_cons.
  destruct (bool_decide (k ∈ tag <$> l)) eqn:Hin; cbn [andb].
  - apply bool_decide_eq_true in Hin.
    rewrite (bool_decide_eq_true_2 (k ∈ tag r :: (tag <$> l))) by (right; exact Hin).
    cbn [andb].
    destruct (bool_decide (is_Some (fs !! cube_path kh ext t c p k))) eqn:Hk; [reflexivity|].
    unfold fname_pure. fold tag. fold (present r). rewrite present_tag.
    destruct (bool_decide (is_Some (fs !! cube_path kh ext t c p (tag r)))) eqn:Hr; [|reflexivity].
    assert (tag r ≠ k) as Hne.
    { intros <-. congruence. }
    destruct (lowest_res st); [destruct (Qgtb _ _)|]; cbn [fname_dict];
      rewrite lookup_insert_ne by exact Hne; reflexivity.
  - apply bool_decide_eq_false in Hin.
    unfold fname_pure. fold tag. fold (present r). rewrite present_tag.
    destruct (decide (tag r = k)) as [->|Hne].
    + rewrite (bool_decide_eq_true_2 (k ∈ k :: (tag <$> l))) by left.
      cbn [andb]. destruct (bool_decide (is_Some _)); [|reflexivity].
      destruct (lowest_res st); [destruct (Qgtb _ _)|]; cbn [fname_dict];
        rewrite lookup_insert_eq; reflexivity.
    + rewrite (bool_decide_eq_false_2 (k ∈ tag r :: (tag <$> l))).
      2:{ intros H. apply elem_of_cons in H as [H|H]; [congruence | contradiction]. }
      cbn [andb].
      destruct (bool_decide (is_Some _)); [|reflexivity].
      destruct (lowest_res st); [destruct (Qgtb _ _)|]; cbn [fname_dict];
        rewrite lookup_insert_ne by exact Hne; reflexivity.
Qed.

Lemma Qgtb_true a b : Qgtb a b = true -> Qle b a.
Proof.
  unfold Qgtb. intros H. apply negb_true_iff in H.
  apply Qlt_le_weak, Qnot_le_lt. intros Hle.
  apply Qle_bool_iff in Hle. congruence.
Qed.

Lemma Qgtb_false a b : Qgtb a b = false -> Qle a b.
Proof.
  unfold Qgtb. intros H. apply negb_false_iff in H. apply Qle_bool_iff. exact H.
Qed.

Lemma fname_pure_absent st r :
  present r = false -> fname_pure kh ext fs t c p st r = st.
Proof. unfold fname_pure. fold (present r). intros ->. reflexivity. Qed.

(** What a present cube does to the running maximum. *)
Lemma fname_pure_lowest st r :
  present r = true ->
  let st1 := fname_pure kh ext fs t c p st r in
  (lowest_res st = None -> lowest_res st1 = Some r /\ lowest_res_tag st1 = tag r)
  /\ (forall m0, lowest_res st = Some m0 -> Qgtb r m0 = true ->
        lowest_res st1 = Some r /\ lowest_res_tag st1 = tag r)
  /\ (forall m0, lowest_res st = Some m0 -> Qgtb r m0 = false ->
        lowest_res st1 = Some m0 /\ lowest_res_tag st1 = lowest_res_tag st).
Proof.
  intros Hp. unfold fname_pure. fold (present r). rewrite Hp. cbn zeta.
  split; [|split].
  - intros E. rewrite E. split; reflexivity.
  - intros m0 E Hg. rewrite E. cbn match. rewrite Hg. split; reflexivity.
  - intros m0 E Hg. rewrite E. cbn match. rewrite Hg. cbn. split; reflexivity.
Qed.

(** The scan keeps the first of the largest present resolutions. *)
Lemma scan_lowest l : forall st,
  match lowest_res (scan st l) with
  | None =>
      lowest_res st = None /\ lowest_res_tag (scan st l) = lowest_res_tag st
      /\ (forall r, r ∈ l -> present r = false)
  | Some m =>
      (forall r, r ∈ l -> present r = true -> Qle r m)
      /\ (forall m0, lowest_res st = Some m0 -> Qle m0 m)
      /\ ((lowest_res st = Some m /\ lowest_res_tag (scan st l) = lowest_res_tag st)
          \/ (m ∈ l /\ present m = true /\ lowest_res_tag (scan st l) = tag m))
  end.
Proof.
  induction l as [|r l IH]; intros st.
  - subst scan. cbn [foldl]. destruct (lowest_res st) as [m|] eqn:E.
    + split; [intros r Hr; inversion Hr|]. split; [|left; auto].
      intros m0 [= ->]. apply Qle_refl.
    + split; [reflexivity|]. split; [reflexivity|]. intros r Hr; inversion Hr.
  - subst scan. cbn [foldl].
    specialize (IH (fname_pure kh ext fs t c p st r)).
    destruct (present r) eqn:Hp.
    + destruct (fname_pure_lowest st r Hp) as (HN & HT & HF).
      remember (fname_pure kh ext fs t c p st r) as st1 eqn:Hst1. clear Hst1.
      cbn zeta in HN, HT, HF.
      assert (exists m1, lowest_res st1 = Some m1 /\ Qle r m1
                /\ (forall m0, lowest_res st = Some m0 -> Qle m0 m1)
                /\ ((m1 = r /\ lowest_res_tag st1 = tag r)
                    \/ (lowest_res st = Some m1 /\ lowest_res_tag st1 = lowest_res_tag st)))
        as (m1 & E1 & Hr1 & Hm1 & Hwho1).
      { destruct (lowest_res st) as [m0|] eqn:E0.
        - destruct (Qgtb r m0) eqn:Hgt.
          + destruct (HT m0 eq_refl Hgt) as [L1 L2]. exists r.
            split; [exact L1|]. split; [apply Qle_refl|]. split; [|left; auto].
            intros ? [= <-]. apply Qgtb_true. exact Hgt.
          + destruct (HF m0 eq_refl Hgt) as [L1 L2]. exists m0.
            split; [exact L1|]. split; [apply Qgtb_false; exact Hgt|].
            split; [|right; auto]. intros ? [= <-]. apply Qle_refl.
        - destruct (HN eq_refl) as [L1 L2]. exists r.
          split; [exact L1|]. split; [apply Qle_refl|]. split; [|left; auto].
          intros ? [=]. }
      destruct (lowest_res (foldl _ st1 l)) as [m|] eqn:E.
      * destruct IH as (Hall & Hst & Hwho).
        assert (Qle m1 m) as Hm by (apply Hst; exact E1).
        split; [|split].
        -- intros r' Hr' Hpr'. apply elem_of_cons in Hr' as [->|Hr']; [|auto].
           eapply Qle_trans; [exact Hr1 | exact Hm].
        -- intros m0 E0. eapply Qle_trans; [apply Hm1; exact E0 | exact Hm].
        -- destruct Hwho as [[Em Ht]|(Hin & Hpm & Ht)].
           ++ rewrite E1 in Em. injection Em as <-.
              destruct Hwho1 as [[-> Ht1]|[E0 Ht1]].
              ** right. split; [left|]. split; [exact Hp | congruence].
              ** left. split; [exact E0 | congruence].
           ++ right. split; [right; exact Hin|]. split; [exact Hpm | exact Ht].
      * destruct IH as (Hcontra & _). congruence.
    + rewrite (fname_pure_absent st r Hp) in *.
      destruct (lowest_res (foldl _ st l)) as [m|] eqn:E.
      * destruct IH as (Hall & Hst & Hwho). split; [|split].
        -- intros r' Hr' Hpr'. apply elem_of_cons in Hr' as [->|Hr']; [congruence | auto].
        -- exact Hst.
        -- destruct Hwho as [Hl|(Hin & Hpm & Ht)]; [left; exact Hl|].
           right. split; [right; exact Hin|]. split; [exact Hpm | exact Ht].
      * destruct IH as (H1 & H2 & H3). split; [exact H1|]. split; [exact H2|].
        intros r' Hr'. apply elem_of_cons in Hr' as [->|Hr']; [exact Hp | auto].
Qed.

Lemma scan_absent l : forall st,
  (forall r, r ∈ l -> present r = false) -> scan st l = st.
Proof.
  induction l as [|r l IH]; intros st H; [reflexivity|].
  subst scan. cbn [foldl].
  rewrite fname_pure_absent by (apply H; left).
  apply IH. intros r' Hr'. apply H. right. exact Hr'.
Qed.

End Scan.

(** ** Argument checks *)

Lemma check_input_unset target product config w :
  target = None \/ product = None \/ config = None ->
  exists msg,
    check_input target product config w
    = (Raise (Exception msg), World (files w) (dirs w) (trace w ++ [EvLog ERROR msg])).
Proof.
  intros H. unfold check_input.
  destruct target as [t|]; [|eexists; reflexivity].
  destruct product as [p|]; [|eexists; reflexivity].
  destruct config as [c|]; [|eexists; reflexivity].
  destruct H as [H|[H|H]]; discriminate.
Qed.

Lemma check_input_set t p c w :
  check_input (Some t) (Some p) (Some c) w = (Ret (t, p, c), w).
Proof. reflexivity. Qed.

(** ** The table *)

Lemma table_entry_cube t c p k :
  table_entry kh ext t c p k !! "pbcorr_trimmed_k" = Some (cube_path kh ext t c p k).
Proof.
  unfold table_entry, res_subdict. cbn [foldl].
  rewrite !lookup_insert_ne by discriminate. apply lookup_insert_eq.
Qed.

(** The dictionary scanned from the empty one. *)
Lemma fname_scan_lookup fs t c p l k :
  fname_dict (fname_scan kh ext fs t c p l) !! k
  = if bool_decide (k ∈ get_tag_for_res kh <$> l)
       && bool_decide (is_Some (fs !! cube_path kh ext t c p k))
    then Some (Sub (table_entry kh ext t c p k))
    else None.
Proof. unfold fname_scan. rewrite scan_lookup. cbn [fname_dict]. rewrite lookup_empty. reflexivity. Qed.

(** A tag is a key of the scanned dictionary exactly when a catalog
    resolution with a cube on disk carries it. *)
Lemma fname_scan_key fs t c p l k :
  is_Some (fname_dict (fname_scan kh ext fs t c p l) !! k)
  <-> exists r, r ∈ l /\ get_tag_for_res kh r = k /\ cube_present kh ext fs t c p r = true.
Proof.
  rewrite fname_scan_lookup. split.
  - destruct (bool_decide (k ∈ _)) eqn:E1; cbn [andb]; [|intros [? ?]; discriminate].
    destruct (bool_decide (is_Some _)) eqn:E2; [|intros [? ?]; discriminate].
    intros _. apply bool_decide_eq_true in E1.
    apply list_elem_of_fmap in E1 as (r & -> & Hr).
    exists r. split; [exact Hr|]. split; [reflexivity | exact E2].
  - intros (r & Hr & <- & Hp). unfold cube_present in Hp.
    rewrite bool_decide_eq_true_2 by (apply list_elem_of_fmap; eauto).
    rewrite Hp. cbn. eauto.
Qed.

Lemma fname_table_reserved fs t c p o l :
  fname_table kh ext fs t c p o l !! "res_lowresmask" = Some (Tag (selected_tag kh ext fs t c p o l)).
Proof.
  unfold fname_table, selected_tag. cbn zeta.
  destruct (_ && _); apply lookup_insert_eq.
Qed.

Lemma fname_table_other fs t c p o l k :
  k <> "res_lowresmask" ->
  fname_table kh ext fs t c p o l !! k = fname_dict (fname_scan kh ext fs t c p l) !! k.
Proof.
  intros Hk. unfold fname_table. cbn zeta.
  destruct (_ && _); apply lookup_insert_ne; congruence.
Qed.

(** Without catalog answer [_fname_dict] logs and raises. *)
Lemma fname_dict_run_none t c p o w :
  get_res_for_config kh c = None ->
  let msg := "No target resolutions found for target " +:+ t +:+ " and config" +:+ c in
  _fname_dict kh ext (Some t) (Some c) (Some p) o w
  = (Raise (Exception msg),
     World (files w) (dirs (fname_world kh ext w t c p []))
           (trace (fname_world kh ext w t c p []) ++ [EvLog ERROR msg])).
Proof.
  intros Hl. unfold _fname_dict, fname_world.
  fold (indir_of kh ext t). fold (outdir_of kh ext t). rewrite Hl.
  unfold bind, logger, emit, os_path_isdir, os_makedirs, raise, ret, warnings. cbn.
  destruct (bool_decide (outdir_of kh ext t ∈ dirs w)); cbn;
    rewrite <- !app_assoc; reflexivity.
Qed.

(** ** The low-resolution recipe *)

Lemma recipe_low_run t p c o l w :
  get_res_for_config kh c = Some l ->
  recipe_building_low_resolution_mask kh ext (Some t) (Some p) (Some c) o w
  = lowres_from_table ext
      (Table (fname_table kh ext (files w) t c p (default default_res_lowresmask o) l))
      (fname_world kh ext w t c p l).
Proof.
  intros Hl. unfold recipe_building_low_resolution_mask.
  rewrite (bind_ret _ _ _ _ _ (check_input_set t p c w)).
  rewrite (bind_ret _ _ _ _ _ (fname_dict_run t c p _ l w Hl)). reflexivity.
Qed.

Lemma lowres_from_table_run d sel sub path f w :
  d !! "res_lowresmask" = Some (Tag sel) ->
  d !! sel = Some (Sub sub) ->
  sub !! "pbcorr_trimmed_k" = Some path ->
  files w !! path = Some f ->
  lowres_from_table ext (Table d) w
  = (Ret (simple_mask ext (hdu_data f) (noise_cube ext (hdu_data f)), sel), w).
Proof.
  intros H1 H2 H3 H4.
  unfold lowres_from_table, bind, getitem, subitem, fits_getdata, fits_open, ret.
  rewrite H1, H2, H3. unfold bind. rewrite H4. reflexivity.
Qed.

(** Which tag lands under the reserved key when a cube is on disk: the
    override when it is not empty and names a present cube, otherwise
    the tag of a largest present resolution. *)
Lemma selected_tag_spec fs t c p o l :
  Exists (fun r => cube_present kh ext fs t c p r = true) l ->
  let applies := o <> "" /\ exists r, r ∈ l /\ get_tag_for_res kh r = o
                                      /\ cube_present kh ext fs t c p r = true in
  let sel := selected_tag kh ext fs t c p o l in
  (exists r, r ∈ l /\ get_tag_for_res kh r = sel /\ cube_present kh ext fs t c p r = true)
  /\ (applies -> sel = o)
  /\ (~ applies ->
      exists m, m ∈ l /\ cube_present kh ext fs t c p m = true /\ sel = get_tag_for_res kh m
                /\ forall r, r ∈ l -> cube_present kh ext fs t c p r = true -> Qle r m).
Proof.
  intros Hex. cbn zeta. unfold selected_tag. cbn zeta.
  destruct (bool_decide (o ≠ "") && bool_decide (is_Some _)) eqn:Hc.
  - apply andb_true_iff in Hc as [Ho Hk].
    apply bool_decide_eq_true in Ho. apply bool_decide_eq_true in Hk.
    apply fname_scan_key in Hk. split; [exact Hk|]. split; [reflexivity|].
    intros Hn. exfalso. apply Hn. split; assumption.
  - pose proof (scan_lowest fs t c p l (FnameState ∅ None "")) as Hlow.
    fold (fname_scan kh ext fs t c p l) in Hlow.
    destruct (lowest_res (fname_scan kh ext fs t c p l)) as [m|].
    + destruct Hlow as (Hall & _ & [[Hcontra _]|(Hin & Hpm & Ht)]); [discriminate|].
      split; [exists m; auto|]. split.
      * intros [Ho Hk]. exfalso. apply fname_scan_key in Hk.
        apply andb_false_iff in Hc as [Hc|Hc].
        -- apply bool_decide_eq_false in Hc. contradiction.
        -- apply bool_decide_eq_false in Hc. contradiction.
      * intros _. exists m. auto.
    + destruct Hlow as (_ & _ & Hnone). exfalso.
      apply Exists_exists in Hex as (r & Hr & Hp). rewrite (Hnone r Hr) in Hp. discriminate.
Qed.

(** C2: the low-resolution recipe, called with or without its override
    keyword, over a catalog list with no tag equal to the reserved key
    and at least one cube on disk. The override in force is the
    keyword, or the default 10p72 when the keyword is left out. The
    recipe returns the signal mask of the cube it selects and the tag
    of that cube; the tag is the override in force when that names a
    cube on disk, and otherwise the tag of a coarsest resolution with
    a cube on disk. *)
Theorem low_resolution_tag_selection t p c l o w :
  get_res_for_config kh c = Some l ->
  Forall (fun r => get_tag_for_res kh r <> "res_lowresmask") l ->
  Exists (fun r => cube_present kh ext (files w) t c p r = true) l ->
  exists sel f,
    recipe_building_low_resolution_mask kh ext (Some t) (Some p) (Some c) o w
    = (Ret (simple_mask ext (hdu_data f) (noise_cube ext (hdu_data f)), sel),
       fname_world kh ext w t c p l)
    /\ files w !! cube_path kh ext t c p sel = Some f
    /\ (override_applies kh ext (files w) t c p l (default default_res_lowresmask o) ->
        sel = default default_res_lowresmask o)
    /\ (~ override_applies kh ext (files w) t c p l (default default_res_lowresmask o) ->
        exists m, coarsest_present kh ext (files w) t c p l m /\ sel = get_tag_for_res kh m).
Proof.
  intros Hl Hres Hex. cbn zeta.
  destruct (selected_tag_spec (files w) t c p (default default_res_lowresmask o) l Hex)
    as ((r & Hr & Htag & Hp) & Happ & Hfall).
  set (sel := selected_tag kh ext (files w) t c p (default default_res_lowresmask o) l) in *.
  assert (sel <> "res_lowresmask") as Hsel.
  { rewrite <- Htag. rewrite Forall_forall in Hres. apply Hres. exact Hr. }
  pose proof Hp as Hp'. unfold cube_present in Hp'. rewrite Htag in Hp'.
  apply bool_decide_eq_true in Hp' as [f Hf].
  exists sel, f. split; [|split; [exact Hf | split; [exact Happ |]]].
  2:{ intros Hn. destruct (Hfall Hn) as (m & H1 & H2 & H3 & H4).
      exists m. split; [split; [exact H1 | split; [exact H2 | exact H4]] | exact H3]. }
  rewrite (recipe_low_run t p c o l w Hl).
  eapply lowres_from_table_run.
  - apply fname_table_reserved.
  - rewrite fname_table_other by exact Hsel. rewrite fname_scan_lookup.
    rewrite bool_decide_eq_true_2 by (apply list_elem_of_fmap; eauto).
    rewrite bool_decide_eq_true_2 by eauto. reflexivity.
  - apply table_entry_cube.
  - exact Hf.
Qed.

(** The table part of the recipe reads files and does nothing else. *)
Lemma lowres_from_table_frame d w : snd (lowres_from_table ext d w) = w.
Proof.
  unfold lowres_from_table, bind, getitem, subitem, fits_getdata, fits_open, raise, ret.
  destruct d as [|d]; [reflexivity|].
  destruct (d !! "res_lowresmask") as [[sub|tg]|]; try reflexivity.
  destruct (d !! tg) as [[sub|tg']|]; try reflexivity.
  destruct (sub !! "pbcorr_trimmed_k") as [path|]; try reflexivity.
  unfold bind. destruct (files w !! path); reflexivity.
Qed.

Lemma lowres_from_table_files d w w' :
  files w = files w' ->
  fst (lowres_from_table ext d w) = fst (lowres_from_table ext d w').
Proof.
  intros Hf.
  unfold lowres_from_table, bind, getitem, subitem, fits_getdata, fits_open, raise, ret.
  destruct d as [|d]; [reflexivity|].
  destruct (d !! "res_lowresmask") as [[sub|tg]|]; try reflexivity.
  destruct (d !! tg) as [[sub|tg']|]; try reflexivity.
  destruct (sub !! "pbcorr_trimmed_k") as [path|]; try reflexivity.
  unfold bind. rewrite <- Hf. destruct (files w !! path); reflexivity.
Qed.

Lemma recipe_low_frame target product config o w :
  files (snd (recipe_building_low_resolution_mask kh ext target product config o w)) = files w.
Proof.
  destruct target as [t|], product as [p|], config as [c|]; try reflexivity.
  destruct (get_res_for_config kh c) as [l|] eqn:Hl.
  - rewrite (recipe_low_run t p c o l w Hl), lowres_from_table_frame. reflexivity.
  - unfold recipe_building_low_resolution_mask.
    rewrite (bind_ret _ _ _ _ _ (check_input_set t p c w)).
    rewrite (bind_raise _ _ _ _ _ (fname_dict_run_none t c p _ w Hl)). reflexivity.
Qed.

Lemma recipe_low_files target product config o w w' :
  files w = files w' ->
  fst (recipe_building_low_resolution_mask kh ext target product config o w)
  = fst (recipe_building_low_resolution_mask kh ext target product config o w').
Proof.
  intros Hf.
  destruct target as [t|], product as [p|], config as [c|]; try reflexivity.
  destruct (get_res_for_config kh c) as [l|] eqn:Hl.
  - rewrite !(recipe_low_run t p c o l _ Hl), Hf.
    apply lowres_from_table_files. exact Hf.
  - unfold recipe_building_low_resolution_mask.
    rewrite !(bind_ret _ _ _ _ _ (check_input_set t p c _)).
    rewrite !(bind_raise _ _ _ _ _ (fname_dict_run_none t c p _ _ Hl)). reflexivity.
Qed.

(** C7: the outcome of the low-resolution recipe, mask and tag
    included, depends on the files alone: two worlds with the same
    files give the same outcome; the recipe changes no file; so a
    second run, in the world the first run leaves behind, gives the
    outcome of the first. *)
Theorem low_resolution_recipe_repeatable target product config o w :
  (forall w', files w' = files w ->
     fst (recipe_building_low_resolution_mask kh ext target product config o w')
     = fst (recipe_building_low_resolution_mask kh ext target product config o w))
  /\ files (snd (recipe_building_low_resolution_mask kh ext target product config o w))
     = files w
  /\ fst (recipe_building_low_resolution_mask kh ext target product config o
            (snd (recipe_building_low_resolution_mask kh ext target product config o w)))
     = fst (recipe_building_low_resolution_mask kh ext target product config o w).
Proof.
  split; [|split].
  - intros w' Hw'. apply recipe_low_files. exact Hw'.
  - apply recipe_low_frame.
  - apply recipe_low_files, recipe_low_frame.
Qed.

(** C10: with target, config and product set, a config for which the
    catalog has no resolution list makes [_fname_dict] log an error
    and raise instead of returning a table; with a list, it returns a
    table whatever cubes are missing, and each missing cube is only a
    warning in the log. *)
Theorem fname_dict_missing_catalog_is_fatal t c p o w :
  (get_res_for_config kh c = None ->
   exists msg w',
     _fname_dict kh ext (Some t) (Some c) (Some p) o w = (Raise (Exception msg), w')
     /\ last (trace w') = Some (EvLog ERROR msg)
     /\ files w' = files w)
  /\ (forall l, get_res_for_config kh c = Some l ->
      exists d w',
        _fname_dict kh ext (Some t) (Some c) (Some p) o w = (Ret (Table d), w')
        /\ forall r, r ∈ l -> cube_present kh ext (files w) t c p r = false ->
           warning_for kh ext t c p r ∈ trace w').
Proof.
  split.
  - intros Hl. eexists _, _. split; [apply (fname_dict_run_none t c p o w Hl)|].
    cbn [trace files]. split; [apply last_snoc | reflexivity].
  - intros l Hl. eexists _, _. split; [apply (fname_dict_run t c p o l w Hl)|].
    intros r Hr Hp. unfold fname_world. cbn [trace].
    rewrite !elem_of_app. right. right. right. unfold warnings.
    apply list_elem_of_fmap. exists r. split; [reflexivity|].
    apply list_elem_of_In, List.filter_In. split; [apply list_elem_of_In; exact Hr|].
    rewrite Hp. reflexivity.
Qed.

(** C9: with a resolution list and no cube of it on disk, the table
    holds the reserved key alone, with the empty string as its value,
    and the low-resolution recipe raises [KeyError] on that empty tag
    instead of returning a mask. *)
Theorem no_cube_on_disk_is_fatal t c p l w :
  get_res_for_config kh c = Some l ->
  Forall (fun r => cube_present kh ext (files w) t c p r = false) l ->
  (forall o, fst (_fname_dict kh ext (Some t) (Some c) (Some p) o w)
             = Ret (Table {["res_lowresmask" := Tag ""]}))
  /\ (forall o, fst (recipe_building_low_resolution_mask kh ext (Some t) (Some p) (Some c) o w)
                = Raise (KeyError "")).
Proof.
  intros Hl Habs. rewrite Forall_forall in Habs.
  assert (forall o, fname_table kh ext (files w) t c p o l = {["res_lowresmask" := Tag ""]}) as Htab.
  { intros o. unfold fname_table, fname_scan. rewrite scan_absent by exact Habs.
    cbn [fname_dict lowest_res_tag]. rewrite lookup_empty.
    rewrite (bool_decide_eq_false_2 (is_Some None)) by (intros [? ?]; discriminate).
    rewrite andb_false_r. reflexivity. }
  split; intros o.
  - rewrite (fname_dict_run t c p o l w Hl), Htab. reflexivity.
  - rewrite (recipe_low_run t p c o l w Hl), Htab. reflexivity.
Qed.

(** ** The recipes on unset arguments *)

(** C6: a call of the low-resolution recipe or of the all-resolutions
    recipe with target, product or config unset logs an error and
    raises an exception with the same message; nothing else happens. *)
Theorem recipes_raise_on_unset_argument target product config o m tg w :
  target = None \/ product = None \/ config = None ->
  exists msg,
    recipe_building_low_resolution_mask kh ext target product config o w
    = (Raise (Exception msg), World (files w) (dirs w) (trace w ++ [EvLog ERROR msg]))
    /\ recipe_building_all_resolution_masks kh ext target product config m tg w
       = (Raise (Exception msg), World (files w) (dirs w) (trace w ++ [EvLog ERROR msg])).
Proof.
  intros H. destruct (check_input_unset target product config w H) as [msg Hmsg].
  exists msg. split.
  - unfold recipe_building_low_resolution_mask.
    apply (bind_raise _ _ _ _ _ Hmsg).
  - unfold recipe_building_all_resolution_masks.
    apply (bind_raise _ _ _ _ _ Hmsg).
Qed.

(** C3: with target, product and config set and the low-resolution
    mask or its tag left out, the all-resolutions recipe reads the
    unbound name [this_target] and raises [NameError]; the
    low-resolution recipe is not run and the world is untouched. *)
Theorem all_resolution_masks_without_lowres_raise t p c m tg w :
  m = None \/ tg = None ->
  recipe_building_all_resolution_masks kh ext (Some t) (Some p) (Some c) m tg w
  = (Raise (NameError "name 'this_target' is not defined"), w).
Proof.
  intros H. unfold recipe_building_all_resolution_masks.
  rewrite (bind_ret _ _ _ _ _ (check_input_set t p c w)).
  destruct m as [m|], tg as [tg|]; try reflexivity.
  destruct H; discriminate.
Qed.

(** ** The mask writer *)

Lemma task_writing_mask_run m wc hdr cm out w :
  task_writing_mask ext (Some m) (Some wc) hdr cm (Some out) w
  = (Ret tt,
     World (<[out := mask_file ext m wc hdr cm]> (files w)) (dirs w)
           (trace w ++ (if bool_decide (is_Some (files w !! out)) then [EvRemove out] else [])
                    ++ [EvWrite out (mask_file ext m wc hdr cm)])).
Proof.
  unfold task_writing_mask, bind, os_path_isfile, os_remove, spectral_cube_write,
    fits_of_cube, mask_file. cbn.
  destruct (files w !! out) as [f|] eqn:E.
  - rewrite bool_decide_eq_true_2 by eauto. cbn. rewrite E. cbn.
    rewrite lookup_delete_eq, insert_delete_eq, <- app_assoc. reflexivity.
  - rewrite bool_decide_eq_false_2 by (intros [? ?]; discriminate). cbn.
    rewrite E. reflexivity.
Qed.

(** C8: the mask writer does nothing at all, and raises nothing, when
    mask, wcs or outfile is unset; with the three set it removes the
    file at outfile if there is one and then writes the new mask, so
    that outfile holds the new mask. *)
Theorem task_writing_mask_noop_or_replace mask wc hdr cm outfile w :
  (mask = None \/ wc = None \/ outfile = None ->
   task_writing_mask ext mask wc hdr cm outfile w = (Ret tt, w))
  /\ (forall m c out, mask = Some m -> wc = Some c -> outfile = Some out ->
      exists w',
        task_writing_mask ext mask wc hdr cm outfile w = (Ret tt, w')
        /\ files w' !! out = Some (mask_file ext m c hdr cm)
        /\ (forall q, q <> out -> files w' !! q = files w !! q)
        /\ trace w'
           = trace w ++ (if bool_decide (is_Some (files w !! out)) then [EvRemove out] else [])
                     ++ [EvWrite out (mask_file ext m c hdr cm)]).
Proof.
  split.
  - intros H. unfold task_writing_mask.
    destruct mask; [|reflexivity]. destruct wc; [|reflexivity].
    destruct outfile; [|reflexivity]. destruct H as [H|[H|H]]; discriminate.
  - intros m c out -> -> ->. eexists. split; [apply task_writing_mask_run|].
    cbn [files trace]. split; [apply lookup_insert_eq|]. split; [|reflexivity].
    intros q Hq. apply lookup_insert_ne. congruence.
Qed.

(** ** The product writer *)

Lemma written_app evs1 evs2 : written (evs1 ++ evs2) = written evs1 ++ written evs2.
Proof. apply omap_app. Qed.

Lemma frame_refl P fs : frame P fs fs.
Proof. intros q _. reflexivity. Qed.

Lemma frame_trans P1 P2 fs1 fs2 fs3 :
  frame P1 fs1 fs2 -> frame P2 fs2 fs3 -> frame (P1 ++ P2) fs1 fs3.
Proof.
  intros H1 H2 q Hq. rewrite not_elem_of_app in Hq. destruct Hq as [Hq1 Hq2].
  rewrite (H2 q Hq2). apply H1. exact Hq1.
Qed.

Lemma frame_insert q f fs : frame [q] fs (<[q := f]> fs).
Proof.
  intros q' Hq'. apply lookup_insert_ne. intros ->. apply Hq'. left.
Qed.

Lemma frame_delete q fs : frame [q] fs (delete q fs).
Proof.
  intros q' Hq'. apply lookup_delete_ne. intros ->. apply Hq'. left.
Qed.

(** A loop whose turns all return, touch only their own paths and
    write what they are meant to write. *)
Lemma for_run {A} (body : A -> M unit) (P W : A -> list string) (l : list A) :
  (forall x w, x ∈ l ->
     exists fs' evs, body x w = (Ret tt, World fs' (dirs w) (trace w ++ evs))
                     /\ written evs = W x /\ frame (P x) (files w) fs') ->
  forall w,
    exists fs' evs, for_ l body w = (Ret tt, World fs' (dirs w) (trace w ++ evs))
                    /\ written evs = l ≫= W /\ frame (l ≫= P) (files w) fs'.
Proof.
  induction l as [|x l IH]; intros Hbody w.
  - exists (files w), []. cbn. unfold ret. rewrite app_nil_r, world_eta.
    split; [reflexivity|]. split; [reflexivity | apply frame_refl].
  - destruct (Hbody x w) as (fs1 & evs1 & Hrun1 & Hw1 & Hf1); [left|].
    destruct (IH (fun y w' Hy => Hbody y w' (list_elem_of_further _ _ _ Hy))
                 (World fs1 (dirs w) (trace w ++ evs1)))
      as (fs2 & evs2 & Hrun2 & Hw2 & Hf2).
    exists fs2, (evs1 ++ evs2). cbn [for_].
    rewrite (bind_ret _ _ _ _ _ Hrun1), Hrun2. cbn [files dirs trace].
    rewrite app_assoc. split; [reflexivity|]. split.
    + rewrite written_app, Hw1, Hw2. reflexivity.
    + cbn [mbind list_bind]. eapply frame_trans; [exact Hf1 | exact Hf2].
Qed.

(** [if os.path.isfile(q): os.remove(q); logger.info(msg)], then [k] *)
Lemma remove_old_run {B} q msg (k : M B) w :
  bind (os_path_isfile (Some q))
       (fun old : bool => (if old then os_remove q ;;; logger INFO msg else ret tt) ;;; k) w
  = k (World (delete q (files w)) (dirs w)
             (trace w ++ (if bool_decide (is_Some (files w !! q))
                          then [EvRemove q; EvLog INFO msg] else []))).
Proof.
  unfold bind, os_path_isfile, os_remove, logger, emit, ret.
  destruct (files w !! q) as [f|] eqn:E.
  - rewrite !bool_decide_eq_true_2 by eauto. rewrite E. cbn.
    rewrite <- app_assoc. reflexivity.
  - rewrite !bool_decide_eq_false_2 by (intros [? ?]; discriminate).
    rewrite delete_id by exact E. rewrite app_nil_r, world_eta. reflexivity.
Qed.

Lemma remove_old_last q msg w :
  bind (os_path_isfile (Some q))
       (fun old : bool => if old then os_remove q ;;; logger INFO msg else ret tt) w
  = (Ret tt,
     World (delete q (files w)) (dirs w)
           (trace w ++ (if bool_decide (is_Some (files w !! q))
                        then [EvRemove q; EvLog INFO msg] else []))).
Proof.
  unfold bind, os_path_isfile, os_remove, logger, emit, ret.
  destruct (files w !! q) as [f|] eqn:E.
  - rewrite !bool_decide_eq_true_2 by eauto. rewrite E. cbn.
    rewrite <- app_assoc. reflexivity.
  - rewrite !bool_decide_eq_false_2 by (intros [? ?]; discriminate).
    rewrite delete_id by exact E. rewrite app_nil_r, world_eta. reflexivity.
Qed.

Lemma delete_old_run fl pd w :
  do_errormaps fl = true ->
  exists fs' evs,
    delete_old fl pd w = (Ret tt, World fs' (dirs w) (trace w ++ evs))
    /\ written evs = [] /\ frame [pd_outfile pd; pd_errorfile pd] (files w) fs'.
Proof.
  intros Hon. unfold delete_old. rewrite Hon. cbn zeta.
  rewrite remove_old_run. cbn beta iota.
  rewrite remove_old_last. cbn [files dirs trace].
  rewrite <- app_assoc.
  eexists _, _. split; [reflexivity|]. split.
  - rewrite written_app. do 2 destruct (bool_decide _); reflexivity.
  - apply (frame_trans [_] [_] _ (delete (pd_outfile pd) (files w))); apply frame_delete.
Qed.

Lemma produce_run fl cube rms pd w :
  do_errormaps fl = true ->
  exists fs' evs,
    produce ext fl cube rms pd w = (Ret tt, World fs' (dirs w) (trace w ++ evs))
    /\ written evs = [pd_outfile pd; pd_errorfile pd]
    /\ frame [pd_outfile pd; pd_errorfile pd] (files w) fs'.
Proof.
  intros Hon. unfold produce. rewrite Hon.
  eexists _, _. split.
  - cbv [bind logger emit scproduct_write put_file]. cbn [files dirs trace].
    rewrite <- !app_assoc. reflexivity.
  - split; [reflexivity|].
    apply (frame_trans [_] [_] _ (<[pd_outfile pd := product_map ext (pd_func pd) cube rms]> (files w)));
      apply frame_insert.
Qed.

(** With the error maps on, the product writer returns, writes the
    output and error file of every kind that is on, in order, and
    leaves every other file alone. *)
Lemma task_writting_products_run cube rms common fl w :
  do_errormaps fl = true ->
  let pl := process_list (re_sub ext "\.fits$" "" common) fl in
  exists fs' evs,
    task_writting_products ext cube rms common fl w
    = (Ret tt, World fs' (dirs w) (trace w ++ evs))
    /\ written evs = process_paths pl
    /\ frame (process_paths pl) (files w) fs'.
Proof.
  intros Hon pl. unfold task_writting_products. fold pl.
  destruct (for_run (delete_old fl) (fun pd => [pd_outfile pd; pd_errorfile pd])
              (fun _ => []) pl (fun pd w' _ => delete_old_run fl pd w' Hon) w)
    as (fs1 & evs1 & Hrun1 & Hw1 & Hf1).
  destruct (for_run (produce ext fl cube rms) (fun pd => [pd_outfile pd; pd_errorfile pd])
              (fun pd => [pd_outfile pd; pd_errorfile pd]) pl
              (fun pd w' _ => produce_run fl cube rms pd w' Hon)
              (World fs1 (dirs w) (trace w ++ evs1)))
    as (fs2 & evs2 & Hrun2 & Hw2 & Hf2).
  exists fs2, (evs1 ++ evs2).
  rewrite (bind_ret _ _ _ _ _ Hrun1), Hrun2. cbn [files dirs trace] in *.
  rewrite app_assoc. split; [reflexivity|]. split.
  - rewrite written_app, Hw1, Hw2.
    assert (pl ≫= (fun _ : process_dict => @nil string) = []) as ->.
    { clear. induction pl; [reflexivity | exact IHpl]. }
    reflexivity.
  - intros q Hq. rewrite (Hf2 q Hq). apply Hf1. exact Hq.
Qed.

(** C4: with the error maps switched off and at least one kind switched
    on, the product writer raises [TypeError] in the first turn of its
    deletion loop, at [os.path.isfile(None)]: no product is computed
    and no file is written; the old output file of the first kind, if
    there was one, is gone. *)
Theorem task_writting_products_without_errormaps_raises cube rms common fl w :
  do_errormaps fl = false ->
  process_list (re_sub ext "\.fits$" "" common) fl <> [] ->
  exists msg pd w',
    task_writting_products ext cube rms common fl w = (Raise (TypeError msg), w')
    /\ head (process_list (re_sub ext "\.fits$" "" common) fl) = Some pd
    /\ files w' = delete (pd_outfile pd) (files w)
    /\ (forall q f, EvWrite q f ∈ trace w' -> EvWrite q f ∈ trace w).
Proof.
  intros Hoff Hne. unfold task_writting_products.
  destruct (process_list _ fl) as [|pd rest] eqn:E; [contradiction|].
  eexists _, pd. cbn [for_ head].
  unfold delete_old. rewrite Hoff.
  unfold bind, os_path_isfile, os_remove, logger, emit, raise. cbn.
  destruct (files w !! pd_outfile pd) as [f|] eqn:Ef.
  - rewrite bool_decide_eq_true_2 by eauto. cbn. rewrite Ef. cbn.
    eexists. split; [reflexivity|]. split; [reflexivity|]. split; [reflexivity|].
    cbn. intros q g Hin. rewrite !elem_of_app in Hin.
    destruct Hin as [[Hin|Hin]|Hin]; [exact Hin | |];
      apply list_elem_of_singleton in Hin; discriminate.
  - rewrite bool_decide_eq_false_2 by (intros [? ?]; discriminate). cbn.
    eexists. split; [reflexivity|]. split; [reflexivity|].
    split; [|auto]. symmetry. apply delete_id. exact Ef.
Qed.

(** ** The all-resolutions recipe *)

Lemma table_entry_out t c p k which :
  which ∈ ["hybridmask"; "signalmask"; "broad"; "strict"] ->
  table_entry kh ext t c p k !! which = Some (out_path kh ext t c p k which).
Proof.
  intros H. unfold table_entry, res_subdict, out_path. cbn [foldl].
  repeat (apply elem_of_cons in H as [->|H]);
    [ | | | | inversion H ];
    repeat (rewrite lookup_insert_ne by discriminate); apply lookup_insert_eq.
Qed.

Lemma getitem_run d k e w : d !! k = Some e -> getitem (Table d) k w = (Ret e, w).
Proof. unfold getitem. intros ->. reflexivity. Qed.

Lemma subitem_run sub k v w : sub !! k = Some v -> subitem (Sub sub) k w = (Ret v, w).
Proof. unfold subitem. intros ->. reflexivity. Qed.

Lemma fits_open_run q f w : files w !! q = Some f -> fits_open q w = (Ret f, w).
Proof. unfold fits_open. intros ->. reflexivity. Qed.

Lemma logical_or_run a b w :
  shape a = shape b -> lift (np_logical_or ext a b) w = (Ret (union_mask a b), w).
Proof.
  intros H. unfold lift, np_logical_or.
  rewrite bool_decide_eq_true_2 by exact H. reflexivity.
Qed.

(** The union mask, voxel by voxel. *)
Lemma union_mask_lookup a b i :
  flat (union_mask a b) !! i
  = match flat a !! i, flat b !! i with
    | Some x, Some y => Some (x || y)
    | _, _ => None
    end.
Proof.
  unfold union_mask. cbn [flat]. rewrite lookup_zip_with.
  destruct (flat a !! i); [|reflexivity]. cbn. destruct (flat b !! i); reflexivity.
Qed.

Section Loop.

Variables (t c p : string) (lowres : ndarray bool) (ltag : string).

Let tag := get_tag_for_res kh.

(** The two mask files written for a resolution whose cube is [f]. *)
Let hybrid_event (r : Q) (f : fits) : event :=
  EvWrite (out_path kh ext t c p (tag r) "hybridmask")
    (mask_file ext (union_mask (signal_of ext f) lowres) (WCS ext (hdu_header f))
       (Some (hdu_header f)) (Some (hybrid_comments (tag r) ltag))).

Let signal_event (r : Q) (f : fits) : event :=
  EvWrite (out_path kh ext t c p (tag r) "signalmask")
    (mask_file ext (signal_of ext f) (WCS ext (hdu_header f))
       (Some (hdu_header f)) (Some (signal_comments (tag r)))).

(** One turn of the loop on a resolution of the table. *)
Lemma all_resolution_step_run d r f w :
  d !! tag r = Some (Sub (table_entry kh ext t c p (tag r))) ->
  files w !! cube_path kh ext t c p (tag r) = Some f ->
  shape (signal_of ext f) = shape lowres ->
  exists fs' evs,
    all_resolution_step kh ext (Table d) lowres ltag r w
    = (Ret tt, World fs' (dirs w) (trace w ++ evs))
    /\ written evs = outputs kh ext t c p (tag r)
    /\ frame (outputs kh ext t c p (tag r)) (files w) fs'
    /\ hybrid_event r f ∈ evs /\ signal_event r f ∈ evs.
Proof.
  intros Hd Hf Hshape.
  set (k := tag r) in *.
  set (hp := out_path kh ext t c p k "hybridmask").
  set (sp := out_path kh ext t c p k "signalmask").
  set (bp := out_path kh ext t c p k "broad").
  set (tp := out_path kh ext t c p k "strict").
  set (Fh := mask_file ext (union_mask (signal_of ext f) lowres) (WCS ext (hdu_header f))
               (Some (hdu_header f)) (Some (hybrid_comments k ltag))).
  set (Fs := mask_file ext (signal_of ext f) (WCS ext (hdu_header f))
               (Some (hdu_header f)) (Some (signal_comments k))).
  set (e1 := (if bool_decide (is_Some (files w !! hp)) then [EvRemove hp] else [])
             ++ [EvWrite hp Fh]).
  set (w1 := World (<[hp := Fh]> (files w)) (dirs w) (trace w ++ e1)).
  set (e2 := (if bool_decide (is_Some (files w1 !! sp)) then [EvRemove sp] else [])
             ++ [EvWrite sp Fs]).
  set (w2 := World (<[sp := Fs]> (files w1)) (dirs w) (trace w1 ++ e2)).
  destruct (task_writting_products_run
              (masked_cube (hdu_data f) (WCS ext (hdu_header f))
                 (union_mask (signal_of ext f) lowres))
              (masked_cube (noise_cube ext (hdu_data f)) (WCS ext (hdu_header f))
                 (union_mask (signal_of ext f) lowres))
              bp default_flags w2 eq_refl) as (fs3 & evs3 & Hrun3 & Hw3 & Hf3).
  set (w3 := World fs3 (dirs w2) (trace w2 ++ evs3)) in *.
  destruct (task_writting_products_run
              (masked_cube (hdu_data f) (WCS ext (hdu_header f)) (signal_of ext f))
              (masked_cube (noise_cube ext (hdu_data f)) (WCS ext (hdu_header f))
                 (signal_of ext f))
              tp default_flags w3 eq_refl) as (fs4 & evs4 & Hrun4 & Hw4 & Hf4).
  exists fs4, (e1 ++ e2 ++ evs3 ++ evs4). split; [|split; [|split; [|split]]].
  - unfold all_resolution_step, contains. fold tag. fold k.
    rewrite Hd, bool_decide_eq_true_2 by eauto.
    rewrite (bind_ret _ _ _ _ _ (getitem_run d k _ w Hd)).
    rewrite (bind_ret _ _ _ _ _ (subitem_run _ _ _ w (table_entry_cube t c p k))).
    rewrite (bind_ret _ _ _ _ _ (fits_open_run _ f w Hf)). cbn zeta.
    rewrite (bind_ret _ _ _ _ _ (logical_or_run _ _ w Hshape)).
    rewrite (bind_ret _ _ _ _ _ (subitem_run _ "hybridmask" _ w
               (table_entry_out t c p k "hybridmask" ltac:(set_solver)))).
    rewrite (bind_ret _ _ _ _ _ (task_writing_mask_run _ _ _ _ _ w)).
    fold hp. fold (hybrid_comments k ltag). fold (signal_of ext f). fold Fh. fold e1. fold w1.
    rewrite (bind_ret _ _ _ _ _ (subitem_run _ "signalmask" _ w1
               (table_entry_out t c p k "signalmask" ltac:(set_solver)))).
    rewrite (bind_ret _ _ _ _ _ (task_writing_mask_run _ _ _ _ _ w1)).
    fold sp. fold (signal_comments k). fold Fs. fold e2.
    change (dirs w1) with (dirs w). fold w2.
    rewrite (bind_ret _ _ _ _ _ (subitem_run _ "broad" _ w2
               (table_entry_out t c p k "broad" ltac:(set_solver)))).
    fold bp. rewrite (bind_ret _ _ _ _ _ Hrun3). fold w3.
    rewrite (bind_ret _ _ _ _ _ (subitem_run _ "strict" _ w3
               (table_entry_out t c p k "strict" ltac:(set_solver)))).
    fold tp. rewrite Hrun4. subst w3 w2 w1. cbn [files dirs trace].
    rewrite <- !app_assoc. reflexivity.
  - rewrite !written_app, Hw3, Hw4. subst e1 e2.
    rewrite !written_app. do 2 destruct (bool_decide _); reflexivity.
  - unfold outputs, product_paths. fold hp sp bp tp.
    apply (frame_trans [hp; sp] _ _ (files w2)).
    + apply (frame_trans [hp] [sp] _ (files w1)); apply frame_insert.
    + apply (frame_trans _ _ _ fs3); [exact Hf3 | exact Hf4].
  - subst e1. rewrite !elem_of_app. left. right. left.
  - subst e2. rewrite !elem_of_app. right. left. right. left.
Qed.

(** A resolution outside the table costs nothing. *)
Lemma all_resolution_step_skip d r w :
  d !! tag r = None ->
  all_resolution_step kh ext (Table d) lowres ltag r w = (Ret tt, w).
Proof.
  intros Hd. unfold all_resolution_step, contains. fold tag. rewrite Hd.
  rewrite bool_decide_eq_false_2 by (intros [? ?]; discriminate). reflexivity.
Qed.

(** The loop over a catalog list [l], from a world [w] that still has
    the cubes of [fs0] that [l] needs: it returns, and it writes the
    outputs of the resolutions with a cube, in catalog order, and
    nothing else. *)
Lemma all_resolution_loop d fs0 l :
  (forall r, r ∈ l ->
     d !! tag r = if cube_present kh ext fs0 t c p r
                  then Some (Sub (table_entry kh ext t c p (tag r))) else None) ->
  (forall r f, r ∈ l -> fs0 !! cube_path kh ext t c p (tag r) = Some f ->
     shape (signal_of ext f) = shape lowres) ->
  (forall r r', r ∈ l -> r' ∈ l ->
     cube_present kh ext fs0 t c p r = true -> cube_present kh ext fs0 t c p r' = true ->
     cube_path kh ext t c p (tag r') ∉ outputs kh ext t c p (tag r)) ->
  forall w,
    (forall r, r ∈ l -> cube_present kh ext fs0 t c p r = true ->
       files w !! cube_path kh ext t c p (tag r) = fs0 !! cube_path kh ext t c p (tag r)) ->
    exists fs' evs,
      for_ l (all_resolution_step kh ext (Table d) lowres ltag) w
      = (Ret tt, World fs' (dirs w) (trace w ++ evs))
      /\ written evs
         = List.filter (cube_present kh ext fs0 t c p) l
             ≫= (fun r => outputs kh ext t c p (tag r))
      /\ (forall r f, r ∈ l -> fs0 !! cube_path kh ext t c p (tag r) = Some f ->
            hybrid_event r f ∈ evs /\ signal_event r f ∈ evs).
Proof.
  induction l as [|r l IH]; intros Hd Hshape Hclob w Hw.
  - exists (files w), []. cbn. unfold ret. rewrite app_nil_r, world_eta.
    split; [reflexivity|]. split; [reflexivity|]. intros r f Hr. inversion Hr.
  - assert (forall x, x ∈ l -> x ∈ r :: l) as Hsub by (intros; right; assumption).
    cbn [for_ List.filter].
    destruct (cube_present kh ext fs0 t c p r) eqn:Hp.
    + pose proof Hp as Hp'. unfold cube_present in Hp'. fold tag in Hp'.
      apply bool_decide_eq_true in Hp' as [f Hf].
      assert (files w !! cube_path kh ext t c p (tag r) = Some f) as Hfw.
      { rewrite Hw; [exact Hf | left | exact Hp]. }
      assert (d !! tag r = Some (Sub (table_entry kh ext t c p (tag r)))) as Hdr.
      { rewrite Hd by left. rewrite Hp. reflexivity. }
      destruct (all_resolution_step_run d r f w Hdr Hfw (Hshape r f ltac:(left) Hf))
        as (fs1 & evs1 & Hrun1 & Hw1 & Hf1 & Hh1 & Hs1).
      destruct (IH (fun x Hx => Hd x (Hsub x Hx))
                   (fun x g Hx => Hshape x g (Hsub x Hx))
                   (fun x y Hx Hy => Hclob x y (Hsub x Hx) (Hsub y Hy))
                   (World fs1 (dirs w) (trace w ++ evs1)))
        as (fs2 & evs2 & Hrun2 & Hw2 & Hev2).
      { intros x Hx Hpx. cbn [files]. rewrite Hf1.
        - apply Hw; [right; exact Hx | exact Hpx].
        - apply Hclob; [left | right; exact Hx | exact Hp | exact Hpx]. }
      exists fs2, (evs1 ++ evs2).
      rewrite (bind_ret _ _ _ _ _ Hrun1), Hrun2. cbn [files dirs trace].
      rewrite app_assoc. split; [reflexivity|]. split.
      * rewrite written_app, Hw1, Hw2. reflexivity.
      * intros x g Hx Hg. rewrite !elem_of_app.
        apply elem_of_cons in Hx as [->|Hx].
        -- rewrite Hf in Hg. injection Hg as <-. split; left; assumption.
        -- destruct (Hev2 x g Hx Hg). split; right; assumption.
    + assert (d !! tag r = None) as Hdr.
      { rewrite Hd by left. rewrite Hp. reflexivity. }
      destruct (IH (fun x Hx => Hd x (Hsub x Hx))
                   (fun x g Hx => Hshape x g (Hsub x Hx))
                   (fun x y Hx Hy => Hclob x y (Hsub x Hx) (Hsub y Hy))
                   w (fun x Hx => Hw x (Hsub x Hx)))
        as (fs2 & evs2 & Hrun2 & Hw2 & Hev2).
      exists fs2, evs2.
      rewrite (bind_ret _ _ _ _ _ (all_resolution_step_skip d r w Hdr)), Hrun2.
      split; [reflexivity|]. split; [exact Hw2|].
      intros x g Hx Hg. apply elem_of_cons in Hx as [->|Hx]; [|eauto].
      exfalso. unfold cube_present in Hp. fold tag in Hp.
      apply bool_decide_eq_false in Hp. apply Hp. eauto.
Qed.

(** [_fname_dict] logs and may make a directory: it writes no file. *)
Lemma fname_world_trace w l :
  exists pre, trace (fname_world kh ext w t c p l) = trace w ++ pre /\ written pre = [].
Proof.
  eexists. split; [reflexivity|].
  unfold warnings. rewrite !written_app.
  assert (forall rs : list Q, written (warning_for kh ext t c p <$> rs) = []) as ->.
  { induction rs; [reflexivity | exact IHrs]. }
  destruct (bool_decide _); reflexivity.
Qed.

(** The recipe with a low-resolution mask handed in: when no tag is the
    reserved key, the masks all have the shape of the low-resolution
    mask and no output path is the path of a cube, the recipe returns;
    it writes the outputs of the present resolutions in catalog order
    and nothing else, the two masks of each among them. *)
Lemma recipe_all_run l w :
  get_res_for_config kh c = Some l ->
  Forall (fun r => tag r <> "res_lowresmask") l ->
  (forall r f, r ∈ l -> files w !! cube_path kh ext t c p (tag r) = Some f ->
     shape (signal_of ext f) = shape lowres) ->
  (forall r r', r ∈ l -> r' ∈ l ->
     cube_present kh ext (files w) t c p r = true ->
     cube_present kh ext (files w) t c p r' = true ->
     cube_path kh ext t c p (tag r') ∉ outputs kh ext t c p (tag r)) ->
  exists w' evs,
    recipe_building_all_resolution_masks kh ext (Some t) (Some p) (Some c)
      (Some lowres) (Some ltag) w = (Ret tt, w')
    /\ trace w' = trace w ++ evs
    /\ written evs
       = List.filter (cube_present kh ext (files w) t c p) l
           ≫= (fun r => outputs kh ext t c p (tag r))
    /\ (forall r f, r ∈ l -> files w !! cube_path kh ext t c p (tag r) = Some f ->
          hybrid_event r f ∈ evs /\ signal_event r f ∈ evs).
Proof.
  intros Hl Hres Hshape Hclob. rewrite Forall_forall in Hres.
  destruct (all_resolution_loop (fname_table kh ext (files w) t c p "" l) (files w) l)
    with (w := fname_world kh ext w t c p l)
    as (fs' & evs & Hrun & Hwr & Hev).
  - intros r Hr. rewrite fname_table_other by (apply Hres; exact Hr).
    rewrite fname_scan_lookup.
    rewrite bool_decide_eq_true_2 by (apply list_elem_of_fmap; eauto).
    reflexivity.
  - exact Hshape.
  - exact Hclob.
  - reflexivity.
  - destruct (fname_world_trace w l) as (pre & Hpre & Hwpre).
    eexists _, (pre ++ evs). split; [|split; [|split]].
    + unfold recipe_building_all_resolution_masks.
      rewrite (bind_ret _ _ _ _ _ (check_input_set t p c w)).
      rewrite (bind_ret _ _ w (lowres, ltag) w) by reflexivity.
      rewrite (bind_ret _ _ _ _ _ (fname_dict_run t c p "" l w Hl)).
      cbn [snd]. rewrite Hl. exact Hrun.
    + cbn [trace]. rewrite Hpre, app_assoc. reflexivity.
    + rewrite written_app, Hwpre, Hwr. reflexivity.
    + intros r f Hr Hf. rewrite !elem_of_app.
      destruct (Hev r f Hr Hf). split; right; assumption.
Qed.

(** C1: when the recipe is handed a low-resolution mask, no tag is the
    reserved key, every signal mask has the shape of the low-resolution
    mask and no output path is the path of a cube, the recipe returns
    and, for every catalog resolution with a cube on disk, it writes
    to the hybrid-mask path of its tag a mask whose voxels are, one by
    one, the OR of the voxel of the signal mask of that cube and the
    voxel of the low-resolution mask, and to the signal-mask path that
    signal mask. *)
Theorem hybrid_mask_is_pointwise_or l w :
  get_res_for_config kh c = Some l ->
  Forall (fun r => tag r <> "res_lowresmask") l ->
  (forall r f, r ∈ l -> files w !! cube_path kh ext t c p (tag r) = Some f ->
     shape (signal_of ext f) = shape lowres) ->
  (forall r r', r ∈ l -> r' ∈ l ->
     cube_present kh ext (files w) t c p r = true ->
     cube_present kh ext (files w) t c p r' = true ->
     cube_path kh ext t c p (tag r') ∉ outputs kh ext t c p (tag r)) ->
  exists w' evs,
    recipe_building_all_resolution_masks kh ext (Some t) (Some p) (Some c)
      (Some lowres) (Some ltag) w = (Ret tt, w')
    /\ trace w' = trace w ++ evs
    /\ forall r f, r ∈ l -> files w !! cube_path kh ext t c p (tag r) = Some f ->
       exists hybrid,
         EvWrite (out_path kh ext t c p (tag r) "hybridmask")
           (mask_file ext hybrid (WCS ext (hdu_header f)) (Some (hdu_header f))
              (Some (hybrid_comments (tag r) ltag))) ∈ evs
         /\ EvWrite (out_path kh ext t c p (tag r) "signalmask")
              (mask_file ext (signal_of ext f) (WCS ext (hdu_header f)) (Some (hdu_header f))
                 (Some (signal_comments (tag r)))) ∈ evs
         /\ shape hybrid = shape (signal_of ext f)
         /\ forall i,
              flat hybrid !! i
              = match flat (signal_of ext f) !! i, flat lowres !! i with
                | Some a, Some b => Some (a || b)
                | _, _ => None
                end.
Proof.
  intros Hl Hres Hshape Hclob.
  destruct (recipe_all_run l w Hl Hres Hshape Hclob) as (w' & evs & Hrun & Htr & _ & Hev).
  exists w', evs. split; [exact Hrun|]. split; [exact Htr|].
  intros r f Hr Hf. destruct (Hev r f Hr Hf) as [Hh Hs].
  exists (union_mask (signal_of ext f) lowres).
  split; [exact Hh|]. split; [exact Hs|]. split; [reflexivity|].
  apply union_mask_lookup.
Qed.

(** C5: the table of [_fname_dict] has a sub-dictionary only under the
    tag of a catalog resolution whose cube is on disk; a resolution
    whose cube is missing gets a warning in the log and no
    sub-dictionary; and the all-resolutions recipe, under the
    conditions in which it returns, writes the outputs of the
    resolutions with a cube, in catalog order, and no other file. *)
Theorem missing_cubes_are_left_out l w :
  get_res_for_config kh c = Some l ->
  (forall o, exists d w1,
     _fname_dict kh ext (Some t) (Some c) (Some p) o w = (Ret (Table d), w1)
     /\ (forall k sub, d !! k = Some (Sub sub) ->
           exists r, r ∈ l /\ tag r = k /\ cube_present kh ext (files w) t c p r = true)
     /\ (forall r, r ∈ l -> cube_present kh ext (files w) t c p r = true ->
           d !! tag r = Some (Sub (table_entry kh ext t c p (tag r)))
           \/ tag r = "res_lowresmask")
     /\ (forall r, r ∈ l -> cube_present kh ext (files w) t c p r = false ->
           (forall sub, d !! tag r <> Some (Sub sub))
           /\ warning_for kh ext t c p r ∈ trace w1))
  /\ (Forall (fun r => tag r <> "res_lowresmask") l ->
      (forall r f, r ∈ l -> files w !! cube_path kh ext t c p (tag r) = Some f ->
         shape (signal_of ext f) = shape lowres) ->
      (forall r r', r ∈ l -> r' ∈ l ->
         cube_present kh ext (files w) t c p r = true ->
         cube_present kh ext (files w) t c p r' = true ->
         cube_path kh ext t c p (tag r') ∉ outputs kh ext t c p (tag r)) ->
      exists w' evs,
        recipe_building_all_resolution_masks kh ext (Some t) (Some p) (Some c)
          (Some lowres) (Some ltag) w = (Ret tt, w')
        /\ trace w' = trace w ++ evs
        /\ written evs
           = List.filter (cube_present kh ext (files w) t c p) l
               ≫= (fun r => outputs kh ext t c p (tag r))).
Proof.
  intros Hl. split.
  - intros o. eexists _, _. split; [apply (fname_dict_run t c p o l w Hl)|].
    split; [|split].
    + intros k sub Hk.
      destruct (decide (k = "res_lowresmask")) as [->|Hne].
      * rewrite fname_table_reserved in Hk. discriminate.
      * rewrite fname_table_other in Hk by exact Hne.
        apply fname_scan_key. eauto.
    + intros r Hr Hp.
      destruct (decide (tag r = "res_lowresmask")) as [He|Hne]; [right; exact He | left].
      rewrite fname_table_other by exact Hne. rewrite fname_scan_lookup.
      rewrite bool_decide_eq_true_2 by (apply list_elem_of_fmap; eauto).
      unfold cube_present in Hp. fold tag in Hp. rewrite Hp. reflexivity.
    + intros r Hr Hp. split.
      * intros sub Hk.
        destruct (decide (tag r = "res_lowresmask")) as [He|Hne].
        -- rewrite He, fname_table_reserved in Hk. discriminate.
        -- rewrite fname_table_other in Hk by exact Hne.
           assert (is_Some (fname_dict (fname_scan kh ext (files w) t c p l) !! tag r)) as Hs
             by eauto.
           apply fname_scan_key in Hs as (r' & _ & Ht & Hp').
           unfold cube_present in Hp, Hp'. unfold tag in *. rewrite Ht in Hp'. congruence.
      * unfold fname_world. cbn [trace].
        rewrite !elem_of_app. right. right. right. unfold warnings.
        apply list_elem_of_fmap. exists r. split; [reflexivity|].
        apply list_elem_of_In, List.filter_In. split; [apply list_elem_of_In; exact Hr|].
        rewrite Hp. reflexivity.
  - intros Hres Hshape Hclob.
    destruct (recipe_all_run l w Hl Hres Hshape Hclob) as (w' & evs & Hrun & Htr & Hwr & _).
    exists w', evs. split; [exact Hrun|]. split; [exact Htr | exact Hwr].
Qed.

End Loop.

End Theory.

(** * The handler on the concrete catalog *)

Ltac demo_cases H :=
  apply list_elem_of_In in H; cbn [In demo_res] in H;
  repeat (destruct H as [<-|H]); [..|contradiction].

(** The table over the catalog with the cube at 10.72 arcsec missing:
    entries for the two other tags, the coarsest as reference. *)
Example demo_table_gap :
  exists d,
    fst (_fname_dict demo_kh demo_ext (Some "T") (Some "X") (Some "P") "" demo_world_gap)
    = Ret (Table d)
    /\ dom d = {["5p00"; "20p00"; "res_lowresmask"]}
    /\ d !! "res_lowresmask" = Some (Tag "20p00").
Proof.
  eexists. split; [vm_compute; reflexivity|]. split; vm_compute; reflexivity.
Qed.

(** With the override 10p72 and the three cubes on disk the reference
    is 10p72; without override it is the coarsest, 20p00. *)
Example demo_table_override :
  selected_tag demo_kh demo_ext (files demo_world) "T" "X" "P" "10p72" demo_res = "10p72"
  /\ selected_tag demo_kh demo_ext (files demo_world) "T" "X" "P" "" demo_res = "20p00".
Proof. split; vm_compute; reflexivity. Qed.

(** The recipe over the catalog with the gap writes two masks and
    twenty-eight products for each of the two present resolutions. *)
Example demo_written_gap :
  length (written (trace (snd (recipe_building_all_resolution_masks demo_kh demo_ext
                                 (Some "T") (Some "P") (Some "X")
                                 (Some demo_lowres) (Some "20p00") demo_world_gap))))
  = 60%nat.
Proof. vm_compute. reflexivity. Qed.

(** The hypotheses of C1 hold on the catalog with the cube at 10.72
    arcsec missing: the recipe returns there. *)
Lemma hybrid_mask_is_pointwise_or_witness :
  exists w',
    recipe_building_all_resolution_masks demo_kh demo_ext (Some "T") (Some "P") (Some "X")
      (Some demo_lowres) (Some "20p00") demo_world_gap = (Ret tt, w').
Proof.
  destruct (hybrid_mask_is_pointwise_or demo_kh demo_ext "T" "X" "P" demo_lowres "20p00"
              demo_res demo_world_gap) as (w' & evs & Hrun & _).
  - reflexivity.
  - repeat constructor; vm_compute; discriminate.
  - intros r f Hr Hf.
    demo_cases Hr; vm_compute in Hf; try discriminate; injection Hf as <-; reflexivity.
  - intros r r' Hr Hr' _ _.
    demo_cases Hr; demo_cases Hr'; refine (bool_decide_unpack _ _); vm_compute; exact I.
  - exists w'. exact Hrun.
Defined.

(** The hypotheses of C2 hold on the catalog with the cube at 10.72
    arcsec missing, the keyword left out. *)
Lemma low_resolution_tag_selection_witness :
  exists sel f,
    recipe_building_low_resolution_mask demo_kh demo_ext (Some "T") (Some "P") (Some "X")
      None demo_world_gap
    = (Ret (simple_mask demo_ext (hdu_data f) (noise_cube demo_ext (hdu_data f)), sel),
       fname_world demo_kh demo_ext demo_world_gap "T" "X" "P" demo_res).
Proof.
  destruct (low_resolution_tag_selection demo_kh demo_ext "T" "P" "X" demo_res None
              demo_world_gap) as (sel & f & Hrun & _).
  - reflexivity.
  - repeat constructor; vm_compute; discriminate.
  - apply Exists_cons_hd. vm_compute. reflexivity.
  - exists sel, f. exact Hrun.
Defined.

(** C2 as the spec has it fails on the catalog with its three cubes on
    disk: called without the keyword, the recipe returns the tag 10p72,
    although the cube at 20 arcsec is present and coarser, and 10p72 is
    the tag of no coarsest present resolution. *)
Lemma low_resolution_default_is_not_coarsest :
  fst (recipe_building_low_resolution_mask demo_kh demo_ext (Some "T") (Some "P") (Some "X")
         None demo_world)
  = Ret (NDArray [1; 1; 2]%nat [true; false], "10p72")
  /\ coarsest_present demo_kh demo_ext (files demo_world) "T" "X" "P" demo_res (Qmake 20 1)
  /\ ~ (exists m, coarsest_present demo_kh demo_ext (files demo_world) "T" "X" "P" demo_res m
                  /\ "10p72" = get_tag_for_res demo_kh m).
Proof.
  split; [vm_compute; reflexivity|]. split.
  - split; [right; right; left|]. split; [vm_compute; reflexivity|].
    intros r Hr _. demo_cases Hr; vm_compute; discriminate.
  - intros (m & (Hm & _ & Hmax) & Htag).
    assert (Qle (Qmake 20 1) m) as Hle.
    { apply Hmax; [right; right; left | vm_compute; reflexivity]. }
    demo_cases Hm; vm_compute in Htag; try discriminate.
    vm_compute in Hle. apply Hle. reflexivity.
Qed.

(** A world with the same files as the concrete one, and other
    directories and log, gives the same mask and tag. *)
Lemma low_resolution_recipe_repeatable_witness :
  fst (recipe_building_low_resolution_mask demo_kh demo_ext (Some "T") (Some "P") (Some "X")
         None (World (files demo_world) {["/data/product/T"]} [EvLog INFO "earlier run"]))
  = fst (recipe_building_low_resolution_mask demo_kh demo_ext (Some "T") (Some "P") (Some "X")
           None demo_world).
Proof.
  refine (proj1 (low_resolution_recipe_repeatable demo_kh demo_ext (Some "T") (Some "P")
                   (Some "X") None demo_world) _ _).
  reflexivity.
Defined.

Lemma all_resolution_masks_without_lowres_raise_witness :
  recipe_building_all_resolution_masks demo_kh demo_ext (Some "T") (Some "P") (Some "X")
    None None demo_world
  = (Raise (NameError "name 'this_target' is not defined"), demo_world).
Proof.
  apply (all_resolution_masks_without_lowres_raise demo_kh demo_ext "T" "P" "X" None None
           demo_world).
  left. reflexivity.
Defined.

Lemma task_writting_products_without_errormaps_raises_witness :
  exists msg pd w',
    task_writting_products demo_ext demo_masked demo_masked_noise
      "/data/product/T/T_X_P_broad_res5p00.fits" demo_flags_no_errormaps demo_world
    = (Raise (TypeError msg), w')
    /\ head (process_list (re_sub demo_ext "\.fits$" "" "/data/product/T/T_X_P_broad_res5p00.fits")
               demo_flags_no_errormaps) = Some pd
    /\ files w' = delete (pd_outfile pd) (files demo_world)
    /\ (forall q f, EvWrite q f ∈ trace w' -> EvWrite q f ∈ trace demo_world).
Proof.
  apply (task_writting_products_without_errormaps_raises demo_ext demo_masked
           demo_masked_noise "/data/product/T/T_X_P_broad_res5p00.fits"
           demo_flags_no_errormaps demo_world).
  - reflexivity.
  - vm_compute. discriminate.
Defined.

Lemma missing_cubes_are_left_out_witness :
  exists w' evs,
    recipe_building_all_resolution_masks demo_kh demo_ext (Some "T") (Some "P") (Some "X")
      (Some demo_lowres) (Some "20p00") demo_world_gap = (Ret tt, w')
    /\ trace w' = trace demo_world_gap ++ evs
    /\ written evs
       = List.filter (cube_present demo_kh demo_ext (files demo_world_gap) "T" "X" "P")
           demo_res
           ≫= (fun r => outputs demo_kh demo_ext "T" "X" "P" (get_tag_for_res demo_kh r)).
Proof.
  destruct (missing_cubes_are_left_out demo_kh demo_ext "T" "X" "P" demo_lowres "20p00"
              demo_res demo_world_gap) as [_ Hrec].
  - reflexivity.
  - apply Hrec.
    + repeat constructor; vm_compute; discriminate.
    + intros r f Hr Hf.
      demo_cases Hr; vm_compute in Hf; try discriminate; injection Hf as <-; reflexivity.
    + intros r r' Hr Hr' _ _.
      demo_cases Hr; demo_cases Hr'; refine (bool_decide_unpack _ _); vm_compute; exact I.
Defined.

Lemma recipes_raise_on_unset_argument_witness :
  exists msg,
    recipe_building_low_resolution_mask demo_kh demo_ext (Some "T") None (Some "X") None
      demo_world
    = (Raise (Exception msg),
       World (files demo_world) (dirs demo_world) (trace demo_world ++ [EvLog ERROR msg]))
    /\ recipe_building_all_resolution_masks demo_kh demo_ext (Some "T") None (Some "X")
         (Some demo_lowres) (Some "20p00") demo_world
       = (Raise (Exception msg),
          World (files demo_world) (dirs demo_world) (trace demo_world ++ [EvLog ERROR msg])).
Proof.
  apply (recipes_raise_on_unset_argument demo_kh demo_ext (Some "T") None (Some "X") None
           (Some demo_lowres) (Some "20p00") demo_world).
  right. left. reflexivity.
Defined.

Lemma task_writing_mask_noop_or_replace_witness :
  task_writing_mask demo_ext (Some demo_lowres) None None None (Some "/data/product/T/m.fits")
    demo_world = (Ret tt, demo_world).
Proof.
  apply (task_writing_mask_noop_or_replace demo_ext (Some demo_lowres) None None None
           (Some "/data/product/T/m.fits") demo_world).
  right. left. reflexivity.
Defined.

Lemma fname_dict_missing_catalog_is_fatal_witness :
  exists msg w',
    _fname_dict demo_kh demo_ext (Some "T") (Some "Y") (Some "P") "" demo_world
    = (Raise (Exception msg), w')
    /\ last (trace w') = Some (EvLog ERROR msg)
    /\ files w' = files demo_world.
Proof.
  apply (fname_dict_missing_catalog_is_fatal demo_kh demo_ext "T" "Y" "P" "" demo_world).
  reflexivity.
Defined.

Lemma no_cube_on_disk_is_fatal_witness :
  fst (_fname_dict demo_kh demo_ext (Some "T") (Some "X") (Some "P") "10p72" demo_world_empty)
  = Ret (Table {["res_lowresmask" := Tag ""]})
  /\ fst (recipe_building_low_resolution_mask demo_kh demo_ext (Some "T") (Some "P")
            (Some "X") None demo_world_empty)
     = Raise (KeyError "").
Proof.
  destruct (no_cube_on_disk_is_fatal demo_kh demo_ext "T" "X" "P" demo_res demo_world_empty)
    as [Htab Hrec].
  - reflexivity.
  - repeat constructor.
  - split; [apply Htab | apply Hrec].
Defined.

(** * More properties of the handler *)

Section MoreTheory.

Context (kh : KeyHandler) (ext : Externals).

(** ** The filename table *)

Lemma removed_app evs1 evs2 : removed (evs1 ++ evs2) = removed evs1 ++ removed evs2.
Proof. apply omap_app. Qed.

Lemma warnings_quiet fs t c p l :
  written (warnings kh ext fs t c p l) = [] /\ removed (warnings kh ext fs t c p l) = []
  /\ forall q, EvMakedirs q ∉ warnings kh ext fs t c p l.
Proof.
  unfold warnings. induction (List.filter _ l) as [|r rs IH]; cbn.
  - split; [reflexivity|]. split; [reflexivity|]. intros q H. inversion H.
  - destruct IH as (H1 & H2 & H3). split; [exact H1|]. split; [exact H2|].
    intros q H. apply elem_of_cons in H as [H|H]; [discriminate | exact (H3 q H)].
Qed.

(** With its three arguments set, [_fname_dict] leaves the product
    directory of the target in place, whether it returns a table or
    raises for a missing catalog list: it makes the directory exactly
    when it was missing, makes no other, and neither writes nor
    removes a file. *)
Theorem fname_dict_ensures_product_directory t c p o w :
  exists evs,
    trace (snd (_fname_dict kh ext (Some t) (Some c) (Some p) o w)) = trace w ++ evs
    /\ dirs (snd (_fname_dict kh ext (Some t) (Some c) (Some p) o w))
       = {[outdir_of kh ext t]} ∪ dirs w
    /\ files (snd (_fname_dict kh ext (Some t) (Some c) (Some p) o w)) = files w
    /\ (forall q, EvMakedirs q ∈ evs <-> q = outdir_of kh ext t /\ q ∉ dirs w)
    /\ written evs = [] /\ removed evs = [].
Proof.
  assert (forall l,
    exists evs,
      trace (fname_world kh ext w t c p l) = trace w ++ evs
      /\ dirs (fname_world kh ext w t c p l) = {[outdir_of kh ext t]} ∪ dirs w
      /\ (forall q, EvMakedirs q ∈ evs <-> q = outdir_of kh ext t /\ q ∉ dirs w)
      /\ written evs = [] /\ removed evs = []) as Hworld.
  { intros l. destruct (warnings_quiet (files w) t c p l) as (Hw & Hr & Hm).
    unfold fname_world. cbn [trace dirs]. eexists. split; [reflexivity|].
    destruct (bool_decide (outdir_of kh ext t ∈ dirs w)) eqn:E.
    - apply bool_decide_eq_true in E.
      split; [symmetry; apply subseteq_union_1_L, singleton_subseteq_l; exact E|].
      split; [|split].
      + intros q. cbn [app]. rewrite !elem_of_cons. split.
        * intros [H|[H|H]]; [congruence | congruence | destruct (Hm q H)].
        * intros [-> H]. contradiction.
      + rewrite !written_app, Hw. reflexivity.
      + rewrite !removed_app, Hr. reflexivity.
    - apply bool_decide_eq_false in E. split; [reflexivity|]. split; [|split].
      + intros q. cbn [app]. rewrite !elem_of_cons. split.
        * intros [H|[H|[H|H]]]; [congruence | congruence | | destruct (Hm q H)].
          injection H as Hq. subst q. split; [reflexivity | exact E].
        * intros [-> _]. right. right. left. reflexivity.
      + rewrite !written_app, Hw. reflexivity.
      + rewrite !removed_app, Hr. reflexivity. }
  destruct (get_res_for_config kh c) as [l|] eqn:Hl.
  - rewrite (fname_dict_run kh ext t c p o l w Hl). cbn [snd].
    destruct (Hworld l) as (evs & H1 & H2 & H3 & H4 & H5).
    exists evs. split; [exact H1|]. split; [exact H2|]. split; [reflexivity|].
    split; [exact H3|]. split; [exact H4 | exact H5].
  - rewrite (fname_dict_run_none kh ext t c p o w Hl). cbn [snd trace dirs files].
    destruct (Hworld []) as (evs & H1 & H2 & H3 & H4 & H5).
    eexists (evs ++ [_]). rewrite H1, <- app_assoc. split; [reflexivity|].
    split; [exact H2|]. split; [reflexivity|]. split; [|split].
    + intros q. rewrite elem_of_app, list_elem_of_singleton. split.
      * intros [H|H]; [apply H3; exact H | discriminate].
      * intros H. left. apply H3. exact H.
    + rewrite written_app, H4. reflexivity.
    + rewrite removed_app, H5. reflexivity.
Qed.

Lemma table_entry_dom t c p k : dom (table_entry kh ext t c p k) = five_keys.
Proof.
  unfold table_entry, res_subdict, five_keys. cbn [foldl].
  rewrite !dom_insert_L, dom_empty_L. set_solver.
Qed.

(** The value under the reserved key: the empty string, or the tag of
    a resolution whose cube is on disk. *)
Lemma selected_tag_cases fs t c p o l :
  selected_tag kh ext fs t c p o l = ""
  \/ exists r, r ∈ l /\ get_tag_for_res kh r = selected_tag kh ext fs t c p o l
               /\ cube_present kh ext fs t c p r = true.
Proof.
  unfold selected_tag. cbn zeta.
  destruct (bool_decide (o ≠ "") && bool_decide (is_Some _)) eqn:Hc.
  - apply andb_true_iff in Hc as [_ Hk]. apply bool_decide_eq_true in Hk.
    right. apply fname_scan_key. exact Hk.
  - pose proof (scan_lowest kh ext fs t c p l (FnameState ∅ None "")) as Hlow.
    fold (fname_scan kh ext fs t c p l) in Hlow.
    destruct (lowest_res (fname_scan kh ext fs t c p l)) as [m|].
    + destruct Hlow as (_ & _ & [[Hcontra _]|(Hin & Hpm & Ht)]); [discriminate|].
      right. exists m. auto.
    + destruct Hlow as (_ & Ht & _). left. exact Ht.
Qed.

(** A sub-dictionary of the table is the one of its tag, and the cube
    of that tag is on disk. *)
Lemma fname_table_sub fs t c p o l k sub :
  fname_table kh ext fs t c p o l !! k = Some (Sub sub) ->
  k <> "res_lowresmask" /\ sub = table_entry kh ext t c p k
  /\ is_Some (fs !! cube_path kh ext t c p k).
Proof.
  intros Hk.
  destruct (decide (k = "res_lowresmask")) as [->|Hne].
  { rewrite fname_table_reserved in Hk. discriminate. }
  rewrite fname_table_other in Hk by exact Hne. rewrite fname_scan_lookup in Hk.
  destruct (bool_decide (k ∈ _)); [|discriminate]. cbn [andb] in Hk.
  destruct (bool_decide (is_Some _)) eqn:E; [|discriminate].
  injection Hk as <-. split; [exact Hne|]. split; [reflexivity|].
  apply bool_decide_eq_true in E. exact E.
Qed.

(** The table that [_fname_dict] returns: its keys are the reserved
    key and the tags of the catalog resolutions whose cube is on disk;
    under a tag other than the reserved key sits the sub-dictionary of
    that tag, with its five keys and, as cube path, a regular file;
    under the reserved key sits the empty string or the tag of a
    resolution whose cube is on disk. *)
Theorem fname_table_keys t c p o l w :
  get_res_for_config kh c = Some l ->
  exists d sel,
    fst (_fname_dict kh ext (Some t) (Some c) (Some p) o w) = Ret (Table d)
    /\ dom d = {["res_lowresmask"]}
               ∪ list_to_set (get_tag_for_res kh
                                <$> List.filter (cube_present kh ext (files w) t c p) l)
    /\ (forall k sub, d !! k = Some (Sub sub) ->
          dom sub = five_keys
          /\ sub !! "pbcorr_trimmed_k" = Some (cube_path kh ext t c p k)
          /\ is_Some (files w !! cube_path kh ext t c p k))
    /\ d !! "res_lowresmask" = Some (Tag sel)
    /\ (sel = ""
        \/ exists r, r ∈ l /\ get_tag_for_res kh r = sel
                     /\ cube_present kh ext (files w) t c p r = true).
Proof.
  intros Hl. rewrite (fname_dict_run kh ext t c p o l w Hl). cbn [fst].
  exists (fname_table kh ext (files w) t c p o l), (selected_tag kh ext (files w) t c p o l).
  split; [reflexivity|]. split; [|split; [|split]].
  - apply set_eq. intros k. rewrite elem_of_dom, elem_of_union, elem_of_singleton.
    rewrite elem_of_list_to_set, list_elem_of_fmap.
    destruct (decide (k = "res_lowresmask")) as [->|Hne].
    + rewrite fname_table_reserved. split; [auto | eauto].
    + rewrite fname_table_other by exact Hne. rewrite fname_scan_key. split.
      * intros (r & Hr & Ht & Hp). right. exists r. split; [auto|].
        apply list_elem_of_In, List.filter_In. split; [apply list_elem_of_In; exact Hr | exact Hp].
      * intros [H|(r & Ht & Hr)]; [contradiction|].
        apply list_elem_of_In, List.filter_In in Hr as [Hr Hp].
        exists r. split; [apply list_elem_of_In; exact Hr | auto].
  - intros k sub Hk. destruct (fname_table_sub _ _ _ _ _ _ _ _ Hk) as (_ & -> & Hf).
    split; [apply table_entry_dom|]. split; [apply table_entry_cube | exact Hf].
  - apply fname_table_reserved.
  - apply selected_tag_cases.
Qed.

(** ** The low-resolution recipe *)

Lemma fits_getdata_run q f w :
  files w !! q = Some f -> fits_getdata q w = (Ret (hdu_data f), w).
Proof.
  intros H. unfold fits_getdata.
  rewrite (bind_ret _ _ _ _ _ (fits_open_run q f w H)). reflexivity.
Qed.

(** What a call of the low-resolution recipe can come to: the signal
    mask of a cube that is on disk, with the tag of that cube; the
    exception of an unset argument or of a missing catalog list; the
    key error on the empty tag; or a type error, when a tag collides
    with the reserved key. It never fails on a file that is not there:
    the cube it reads was seen on disk when the table was built. *)
Theorem low_resolution_recipe_outcomes target product config o w :
  (exists t c p sel f,
     target = Some t /\ config = Some c /\ product = Some p
     /\ files w !! cube_path kh ext t c p sel = Some f
     /\ fst (recipe_building_low_resolution_mask kh ext target product config o w)
        = Ret (signal_of ext f, sel))
  \/ (exists msg,
        fst (recipe_building_low_resolution_mask kh ext target product config o w)
        = Raise (Exception msg))
  \/ fst (recipe_building_low_resolution_mask kh ext target product config o w)
     = Raise (KeyError "")
  \/ (exists msg,
        fst (recipe_building_low_resolution_mask kh ext target product config o w)
        = Raise (TypeError msg)).
Proof.
  destruct target as [t|], product as [p|], config as [c|];
    try (right; left; eexists; reflexivity).
  destruct (get_res_for_config kh c) as [l|] eqn:Hl.
  2:{ right. left. eexists. unfold recipe_building_low_resolution_mask.
      rewrite (bind_ret _ _ _ _ _ (check_input_set t p c w)).
      rewrite (bind_raise _ _ _ _ _ (fname_dict_run_none kh ext t c p _ w Hl)).
      reflexivity. }
  rewrite (recipe_low_run kh ext t p c o l w Hl).
  set (o' := default default_res_lowresmask o).
  set (d := fname_table kh ext (files w) t c p o' l).
  set (sel := selected_tag kh ext (files w) t c p o' l).
  assert (d !! "res_lowresmask" = Some (Tag sel)) as Hres by apply fname_table_reserved.
  unfold lowres_from_table.
  rewrite (bind_ret _ _ _ _ _ (getitem_run d _ _ _ Hres)).
  destruct (d !! sel) as [[sub|tg]|] eqn:Hsel.
  - destruct (fname_table_sub _ _ _ _ _ _ _ _ Hsel) as (_ & -> & [f Hf]).
    left. exists t, c, p, sel, f. repeat (split; [reflexivity|]). split; [exact Hf|].
    rewrite (bind_ret _ _ _ _ _ (getitem_run d _ _ _ Hsel)).
    rewrite (bind_ret _ _ _ _ _ (subitem_run _ _ _ _ (table_entry_cube kh ext t c p sel))).
    rewrite (bind_ret _ _ _ _ _
               (fits_getdata_run _ f (fname_world kh ext w t c p l) Hf)).
    reflexivity.
  - right. right. right. eexists.
    rewrite (bind_ret _ _ _ _ _ (getitem_run d _ _ _ Hsel)). reflexivity.
  - right. right. left.
    assert (sel = "") as ->.
    { destruct (selected_tag_cases (files w) t c p o' l) as [H|(r & Hr & Ht & Hp)]; [exact H|].
      exfalso. fold sel in Ht.
      destruct (decide (sel = "res_lowresmask")) as [He|Hne]; [congruence|].
      unfold d in Hsel. rewrite fname_table_other in Hsel by exact Hne.
      assert (is_Some (fname_dict (fname_scan kh ext (files w) t c p l) !! sel)) as [? Hs].
      { apply fname_scan_key. eauto. }
      congruence. }
    unfold bind, getitem. rewrite Hsel. reflexivity.
Qed.

(** ** The mask writer *)

(** Two masks written one after the other to the same path: the
    second call removes the file of the first and writes its own, and
    the files are then what the second call alone would have left. *)
Theorem task_writing_mask_last_write_wins m1 c1 h1 cm1 m2 c2 h2 cm2 out w :
  exists w' evs,
    (task_writing_mask ext (Some m1) (Some c1) h1 cm1 (Some out) ;;;
     task_writing_mask ext (Some m2) (Some c2) h2 cm2 (Some out)) w = (Ret tt, w')
    /\ trace w' = trace w ++ evs ++ [EvRemove out; EvWrite out (mask_file ext m2 c2 h2 cm2)]
    /\ written evs = [out]
    /\ files w' = <[out := mask_file ext m2 c2 h2 cm2]> (files w)
    /\ files w' = files (snd (task_writing_mask ext (Some m2) (Some c2) h2 cm2 (Some out) w)).
Proof.
  exists (World (<[out := mask_file ext m2 c2 h2 cm2]> (files w)) (dirs w)
            (trace w ++ ((if bool_decide (is_Some (files w !! out)) then [EvRemove out] else [])
                         ++ [EvWrite out (mask_file ext m1 c1 h1 cm1)])
                     ++ [EvRemove out; EvWrite out (mask_file ext m2 c2 h2 cm2)])),
         ((if bool_decide (is_Some (files w !! out)) then [EvRemove out] else [])
          ++ [EvWrite out (mask_file ext m1 c1 h1 cm1)]).
  split; [|split; [reflexivity|split; [|split; [reflexivity|]]]].
  - rewrite (bind_ret _ _ _ _ _ (task_writing_mask_run ext m1 c1 h1 cm1 out w)).
    rewrite task_writing_mask_run. cbn [files dirs trace].
    rewrite lookup_insert_eq.
    rewrite (bool_decide_eq_true_2 (is_Some (Some (mask_file ext m1 c1 h1 cm1)))) by eauto.
    rewrite insert_insert_eq, <- !app_assoc. reflexivity.
  - rewrite written_app. destruct (bool_decide _); reflexivity.
  - rewrite task_writing_mask_run. reflexivity.
Qed.



(** ** The product writer *)

Lemma process_paths_cons pd pl :
  process_paths (pd :: pl) = pd_outfile pd :: pd_errorfile pd :: process_paths pl.
Proof. reflexivity. Qed.

(** One turn of the deletion loop, the error maps on. *)
Lemma delete_old_exact fl pd w :
  do_errormaps fl = true ->
  exists evs,
    delete_old fl pd w
    = (Ret tt, World (delete (pd_errorfile pd) (delete (pd_outfile pd) (files w))) (dirs w)
                     (trace w ++ evs))
    /\ written evs = []
    /\ forall q, q ∈ removed evs
                 <-> (q = pd_outfile pd \/ q = pd_errorfile pd) /\ is_Some (files w !! q).
Proof.
  intros Hon. unfold delete_old. rewrite Hon. cbn zeta.
  rewrite remove_old_run. cbn beta iota.
  rewrite remove_old_last. cbn [files dirs trace].
  rewrite <- app_assoc. eexists. split; [reflexivity|]. split.
  - rewrite written_app. do 2 destruct (bool_decide _); reflexivity.
  - intros q. rewrite removed_app, elem_of_app.
    destruct (decide (pd_errorfile pd = pd_outfile pd)) as [Heq|Hne].
    + rewrite Heq, lookup_delete_eq.
      rewrite (bool_decide_eq_false_2 (is_Some None)) by (intros [? ?]; discriminate).
      destruct (bool_decide (is_Some (files w !! pd_outfile pd))) eqn:E; cbn.
      * apply bool_decide_eq_true in E. rewrite list_elem_of_singleton. split.
        -- intros [->|H]; [auto | inversion H].
        -- intros [[->| ->] _]; left; reflexivity.
      * apply bool_decide_eq_false in E. split.
        -- intros [H|H]; inversion H.
        -- intros [[->| ->] H]; contradiction.
    + rewrite lookup_delete_ne by congruence.
      destruct (bool_decide (is_Some (files w !! pd_outfile pd))) eqn:E1;
        destruct (bool_decide (is_Some (files w !! pd_errorfile pd))) eqn:E2; cbn;
        try apply bool_decide_eq_true in E1; try apply bool_decide_eq_false in E1;
        try apply bool_decide_eq_true in E2; try apply bool_decide_eq_false in E2;
        rewrite ?list_elem_of_singleton; split.
      * intros [->| ->]; auto.
      * intros [[->| ->] _]; auto.
      * intros [->|H]; [auto | inversion H].
      * intros [[->| ->] H]; [auto | contradiction].
      * intros [H| ->]; [inversion H | auto].
      * intros [[->| ->] H]; [contradiction | auto].
      * intros [H|H]; inversion H.
      * intros [[->| ->] H]; contradiction.
Qed.

Lemma delete_loop_exact fl pl : forall w,
  do_errormaps fl = true ->
  exists fs' evs,
    for_ pl (delete_old fl) w = (Ret tt, World fs' (dirs w) (trace w ++ evs))
    /\ (forall q, q ∈ process_paths pl -> fs' !! q = None)
    /\ (forall q, q ∉ process_paths pl -> fs' !! q = files w !! q)
    /\ written evs = []
    /\ (forall q, q ∈ removed evs <-> q ∈ process_paths pl /\ is_Some (files w !! q)).
Proof.
  induction pl as [|pd pl IH]; intros w Hon.
  - exists (files w), []. cbn [for_]. unfold ret. rewrite app_nil_r, world_eta.
    split; [reflexivity|]. split; [intros q H; inversion H|]. split; [reflexivity|].
    split; [reflexivity|]. intros q. split; [intros H; inversion H | intros [H _]; inversion H].
  - destruct (delete_old_exact fl pd w Hon) as (evs1 & Hrun1 & Hw1 & Hr1).
    destruct (IH (World (delete (pd_errorfile pd) (delete (pd_outfile pd) (files w)))
                        (dirs w) (trace w ++ evs1)) Hon)
      as (fs2 & evs2 & Hrun2 & Hnone2 & Hframe2 & Hw2 & Hr2).
    cbn [files dirs trace] in *.
    assert (forall q, (delete (pd_errorfile pd) (delete (pd_outfile pd) (files w))) !! q
                      = if bool_decide (q = pd_outfile pd \/ q = pd_errorfile pd)
                        then None else files w !! q) as Hdel.
    { intros q. case_bool_decide as Hq.
      - destruct (decide (q = pd_errorfile pd)) as [->|Hne]; [apply lookup_delete_eq|].
        rewrite lookup_delete_ne by congruence. destruct Hq as [->|Hq]; [|contradiction].
        apply lookup_delete_eq.
      - rewrite !lookup_delete_ne by (intros E; apply Hq; subst q; auto). reflexivity. }
    exists fs2, (evs1 ++ evs2). cbn [for_].
    rewrite (bind_ret _ _ _ _ _ Hrun1), Hrun2, app_assoc.
    split; [reflexivity|]. rewrite process_paths_cons. split; [|split; [|split]].
    + intros q Hq. destruct (decide (q ∈ process_paths pl)) as [Hin|Hnin]; [auto|].
      rewrite (Hframe2 q Hnin), Hdel.
      rewrite bool_decide_eq_true_2; [reflexivity|].
      rewrite !elem_of_cons in Hq. destruct Hq as [Hq|[Hq|Hq]]; [auto | auto | contradiction].
    + intros q Hq. rewrite !not_elem_of_cons in Hq. destruct Hq as (H1 & H2 & H3).
      rewrite (Hframe2 q H3), Hdel.
      rewrite bool_decide_eq_false_2; [reflexivity|]. intros [H|H]; contradiction.
    + rewrite written_app, Hw1, Hw2. reflexivity.
    + intros q. rewrite removed_app, elem_of_app, Hr1, Hr2, Hdel, !elem_of_cons.
      case_bool_decide as Hq.
      * split.
        -- intros [[H1 H2]|[_ [? H]]]; [|discriminate]. split; [|exact H2].
           destruct H1; auto.
        -- intros [_ H]. left. auto.
      * split.
        -- intros [[H1 _]|[H1 H2]]; [contradiction|]. auto.
        -- intros [[H|[H|H]] H2]; [exfalso; auto | exfalso; auto | right; auto].
Qed.

(** The deletion loop of the product writer, the error maps on: it
    returns; afterwards no output file and no error file of a kind
    that is on is left; it removed exactly those of them that were
    there, touched no other file and wrote nothing. *)
Theorem deletion_loop_removes_exactly_old_files common fl w :
  do_errormaps fl = true ->
  exists w' evs,
    for_ (process_list (re_sub ext "\.fits$" "" common) fl) (delete_old fl) w = (Ret tt, w')
    /\ trace w' = trace w ++ evs
    /\ dirs w' = dirs w
    /\ (forall q, q ∈ process_paths (process_list (re_sub ext "\.fits$" "" common) fl) ->
          files w' !! q = None)
    /\ (forall q, q ∉ process_paths (process_list (re_sub ext "\.fits$" "" common) fl) ->
          files w' !! q = files w !! q)
    /\ written evs = []
    /\ (forall q, q ∈ removed evs
                  <-> q ∈ process_paths (process_list (re_sub ext "\.fits$" "" common) fl)
                      /\ is_Some (files w !! q)).
Proof.
  intros Hon.
  destruct (delete_loop_exact fl (process_list (re_sub ext "\.fits$" "" common) fl) w Hon)
    as (fs' & evs & Hrun & H1 & H2 & H3 & H4).
  eexists _, evs. split; [exact Hrun|]. cbn [files dirs trace].
  split; [reflexivity|]. split; [reflexivity|]. auto.
Qed.

(** The process list, kind by kind. *)
Lemma process_list_spec name fl :
  process_list name fl = kind_entry name <$> List.filter (kind_enabled fl) all_kinds.
Proof. destruct fl as [[] [] [] [] [] [] [] e]; reflexivity. Qed.

Lemma process_list_nil name fl :
  process_list name fl = [] <-> forall k, kind_enabled fl k = false.
Proof.
  split.
  - intros H k. destruct fl as [[] [] [] [] [] [] [] e]; try discriminate H.
    destruct k; reflexivity.
  - intros H. rewrite process_list_spec.
    assert (List.filter (kind_enabled fl) all_kinds = []) as ->; [|reflexivity].
    unfold all_kinds. cbn [List.filter]. rewrite !H. reflexivity.
Qed.

(** With every kind off the product writer does nothing at all,
    whatever the error-map flag; and with the error maps off that is
    the only way for it to return. *)
Theorem task_writting_products_nothing_on cube rms common fl w :
  ((forall k, kind_enabled fl k = false) ->
   task_writting_products ext cube rms common fl w = (Ret tt, w))
  /\ (do_errormaps fl = false ->
      (exists w', task_writting_products ext cube rms common fl w = (Ret tt, w')) ->
      forall k, kind_enabled fl k = false).
Proof.
  split.
  - intros H. unfold task_writting_products.
    apply (process_list_nil (re_sub ext "\.fits$" "" common)) in H. rewrite H. reflexivity.
  - intros Hoff [w' Hrun]. apply (process_list_nil (re_sub ext "\.fits$" "" common)).
    destruct (process_list (re_sub ext "\.fits$" "" common) fl) as [|pd rest] eqn:E;
      [reflexivity|].
    exfalso. revert Hrun. unfold task_writting_products. rewrite E.
    cbn [for_]. unfold delete_old. rewrite Hoff.
    unfold bind, os_path_isfile, os_remove, logger, emit, raise. cbn.
    destruct (files w !! pd_outfile pd) as [f|] eqn:Ef.
    + rewrite bool_decide_eq_true_2 by eauto. cbn. rewrite Ef. cbn. discriminate.
    + rewrite bool_decide_eq_false_2 by (intros [? ?]; discriminate). cbn. discriminate.
Qed.

Lemma append_inj_l s a b : s +:+ a = s +:+ b -> a = b.
Proof.
  induction s as [|ch s IH]; cbn; [auto|]. intros H. injection H as H. auto.
Qed.

(** The files of a kind that is off are not among those of the kinds
    that are on. *)
Lemma kind_paths_apart name fl k :
  kind_enabled fl k = false ->
  (pd_outfile (kind_entry name k) ∉ process_paths (process_list name fl))
  /\ (pd_errorfile (kind_entry name k) ∉ process_paths (process_list name fl)).
Proof.
  intros Hoff. rewrite process_list_spec. unfold process_paths.
  split; intros Hin; apply list_elem_of_bind in Hin as (pd & Hq & Hpd);
    apply list_elem_of_fmap in Hpd as (k' & -> & Hk');
    apply list_elem_of_In, List.filter_In in Hk' as [_ Hon];
    rewrite !elem_of_cons in Hq; destruct Hq as [Hq|[Hq|Hq]]; try (inversion Hq; fail);
    unfold kind_entry, process_entry in Hq; cbn [pd_outfile pd_errorfile] in Hq;
    apply append_inj_l in Hq;
    destruct k, k'; cbn in Hq; try discriminate Hq; congruence.
Qed.

(** A kind that is off is left alone, the error maps on: the writer
    returns, the output file and the error file of that kind are as
    they were, and neither is written. *)
Theorem task_writting_products_leaves_disabled_kind cube rms common fl k w :
  do_errormaps fl = true ->
  kind_enabled fl k = false ->
  exists w' evs,
    task_writting_products ext cube rms common fl w = (Ret tt, w')
    /\ trace w' = trace w ++ evs
    /\ files w' !! pd_outfile (kind_entry (re_sub ext "\.fits$" "" common) k)
       = files w !! pd_outfile (kind_entry (re_sub ext "\.fits$" "" common) k)
    /\ files w' !! pd_errorfile (kind_entry (re_sub ext "\.fits$" "" common) k)
       = files w !! pd_errorfile (kind_entry (re_sub ext "\.fits$" "" common) k)
    /\ (pd_outfile (kind_entry (re_sub ext "\.fits$" "" common) k) ∉ written evs)
    /\ (pd_errorfile (kind_entry (re_sub ext "\.fits$" "" common) k) ∉ written evs).
Proof.
  intros Hon Hoff.
  destruct (task_writting_products_run ext cube rms common fl w Hon)
    as (fs' & evs & Hrun & Hwr & Hfr).
  destruct (kind_paths_apart (re_sub ext "\.fits$" "" common) fl k Hoff) as [Ho He].
  eexists _, evs. split; [exact Hrun|]. cbn [files trace].
  split; [reflexivity|]. split; [apply Hfr; exact Ho|]. split; [apply Hfr; exact He|].
  rewrite Hwr. split; assumption.
Qed.

(** ** The all-resolutions recipe *)

Section MoreLoop.

Variables (t c p : string) (lowres : ndarray bool) (ltag : string).



(** The loop of the recipe over a catalog list none of whose cubes is
    in the table does nothing. *)
Lemma all_resolution_loop_skip d l : forall w,
  (forall r, r ∈ l -> d !! get_tag_for_res kh r = None) ->
  for_ l (all_resolution_step kh ext (Table d) lowres ltag) w = (Ret tt, w).
Proof.
  induction l as [|r l IH]; intros w Hd; [reflexivity|].
  cbn [for_].
  rewrite (bind_ret _ _ _ _ _ (all_resolution_step_skip kh ext lowres ltag d r w
                                 (Hd r ltac:(left)))).
  apply IH. intros x Hx. apply Hd. right. exact Hx.
Qed.

(** With a catalog list and no cube of it on disk, the all-resolutions
    recipe handed a mask returns: it has done what [_fname_dict] does
    and nothing more, so no file is written, removed or changed. *)
Theorem all_resolution_recipe_without_cubes l w :
  get_res_for_config kh c = Some l ->
  Forall (fun r => get_tag_for_res kh r <> "res_lowresmask") l ->
  Forall (fun r => cube_present kh ext (files w) t c p r = false) l ->
  exists evs,
    recipe_building_all_resolution_masks kh ext (Some t) (Some p) (Some c)
      (Some lowres) (Some ltag) w
    = (Ret tt, snd (_fname_dict kh ext (Some t) (Some c) (Some p) "" w))
    /\ trace (snd (_fname_dict kh ext (Some t) (Some c) (Some p) "" w)) = trace w ++ evs
    /\ written evs = [] /\ removed evs = []
    /\ files (snd (_fname_dict kh ext (Some t) (Some c) (Some p) "" w)) = files w.
Proof.
  intros Hl Hres Habs. rewrite Forall_forall in Hres. rewrite Forall_forall in Habs.
  destruct (fname_dict_ensures_product_directory t c p "" w)
    as (evs & Htr & _ & Hfiles & _ & Hwr & Hrm).
  exists evs. split; [|auto].
  unfold recipe_building_all_resolution_masks.
  rewrite (bind_ret _ _ _ _ _ (check_input_set t p c w)).
  rewrite (bind_ret _ _ w (lowres, ltag) w) by reflexivity.
  rewrite (fname_dict_run kh ext t c p "" l w Hl).
  rewrite (bind_ret _ _ _ _ _ (fname_dict_run kh ext t c p "" l w Hl)).
  cbn [snd]. rewrite Hl. apply all_resolution_loop_skip.
  intros r Hr. rewrite fname_table_other by (apply Hres; exact Hr).
  rewrite fname_scan_lookup. pose proof (Habs r Hr) as Hp. unfold cube_present in Hp.
  rewrite Hp, andb_false_r. reflexivity.
Qed.

End MoreLoop.

(** ** loop_products_making *)

(** With a cube on disk and no tag equal to the reserved key, the
    low-resolution recipe returns the signal mask and the tag of a
    resolution whose cube is on disk. *)
Lemma recipe_low_returns t p c l o w :
  get_res_for_config kh c = Some l ->
  Forall (fun r => get_tag_for_res kh r <> "res_lowresmask") l ->
  Exists (fun r => cube_present kh ext (files w) t c p r = true) l ->
  exists r f,
    r ∈ l
    /\ files w !! cube_path kh ext t c p (get_tag_for_res kh r) = Some f
    /\ recipe_building_low_resolution_mask kh ext (Some t) (Some p) (Some c) o w
       = (Ret (signal_of ext f, get_tag_for_res kh r), fname_world kh ext w t c p l).
Proof.
  intros Hl Hres Hex. rewrite Forall_forall in Hres.
  destruct (selected_tag_spec kh ext (files w) t c p (default default_res_lowresmask o) l Hex)
    as ((r & Hr & Htag & Hp) & _).
  pose proof Hp as Hp'. unfold cube_present in Hp'.
  apply bool_decide_eq_true in Hp' as [f Hf].
  exists r, f. split; [exact Hr|]. split; [exact Hf|].
  rewrite (recipe_low_run kh ext t p c o l w Hl).
  eapply lowres_from_table_run.
  - rewrite fname_table_reserved, <- Htag. reflexivity.
  - rewrite fname_table_other by (apply Hres; exact Hr). rewrite fname_scan_lookup.
    rewrite bool_decide_eq_true_2 by (apply list_elem_of_fmap; eauto).
    rewrite bool_decide_eq_true_2 by eauto. reflexivity.
  - apply table_entry_cube.
  - exact Hf.
Qed.

Lemma union_mask_diag m : union_mask m m = m.
Proof.
  destruct m as [s l]. unfold union_mask. cbn [shape flat]. f_equal.
  induction l as [|a l IH]; [reflexivity|]. cbn. rewrite IH, orb_diag. reflexivity.
Qed.

(** One turn of the loop, on a triple with a cube on disk, no tag
    equal to the reserved key, signal masks of one shape and no output
    path over a cube: the turn returns; it writes the outputs of the
    resolutions with a cube and no other file; each hybrid mask is the
    signal mask of its cube joined with the signal mask of one and the
    same reference cube; and the hybrid mask of the reference
    resolution is its own signal mask. *)
Theorem process_triple_composes t p c l w :
  get_res_for_config kh c = Some l ->
  Forall (fun r => get_tag_for_res kh r <> "res_lowresmask") l ->
  Exists (fun r => cube_present kh ext (files w) t c p r = true) l ->
  (forall r r' f f', r ∈ l -> r' ∈ l ->
     files w !! cube_path kh ext t c p (get_tag_for_res kh r) = Some f ->
     files w !! cube_path kh ext t c p (get_tag_for_res kh r') = Some f' ->
     shape (signal_of ext f) = shape (signal_of ext f')) ->
  (forall r r', r ∈ l -> r' ∈ l ->
     cube_present kh ext (files w) t c p r = true ->
     cube_present kh ext (files w) t c p r' = true ->
     cube_path kh ext t c p (get_tag_for_res kh r')
     ∉ outputs kh ext t c p (get_tag_for_res kh r)) ->
  exists w' evs r0 f0,
    process_triple kh ext (t, p, c) w = (Ret tt, w')
    /\ trace w' = trace w ++ evs
    /\ written evs
       = List.filter (cube_present kh ext (files w) t c p) l
           ≫= (fun r => outputs kh ext t c p (get_tag_for_res kh r))
    /\ r0 ∈ l
    /\ files w !! cube_path kh ext t c p (get_tag_for_res kh r0) = Some f0
    /\ (forall r f, r ∈ l ->
          files w !! cube_path kh ext t c p (get_tag_for_res kh r) = Some f ->
          EvWrite (out_path kh ext t c p (get_tag_for_res kh r) "hybridmask")
            (mask_file ext (union_mask (signal_of ext f) (signal_of ext f0))
               (WCS ext (hdu_header f)) (Some (hdu_header f))
               (Some (hybrid_comments (get_tag_for_res kh r) (get_tag_for_res kh r0))))
          ∈ evs)
    /\ EvWrite (out_path kh ext t c p (get_tag_for_res kh r0) "hybridmask")
         (mask_file ext (signal_of ext f0)
            (WCS ext (hdu_header f0)) (Some (hdu_header f0))
            (Some (hybrid_comments (get_tag_for_res kh r0) (get_tag_for_res kh r0))))
       ∈ evs.
Proof.
  intros Hl Hres Hex Hsame Hclob.
  destruct (recipe_low_returns t p c l None w Hl Hres Hex) as (r0 & f0 & Hr0 & Hf0 & Hlow).
  destruct (recipe_all_run kh ext t c p (signal_of ext f0) (get_tag_for_res kh r0) l
              (fname_world kh ext w t c p l) Hl Hres)
    as (w' & evs & Hrun & Htr & Hwr & Hev).
  { intros r f Hr Hf. exact (Hsame r r0 f f0 Hr Hr0 Hf Hf0). }
  { exact Hclob. }
  destruct (fname_world_trace kh ext t c p w l) as (pre & Hpre & Hwpre).
  exists w', (pre ++ evs), r0, f0.
  split; [|split; [|split; [|split; [exact Hr0|split; [exact Hf0|split]]]]].
  - unfold process_triple. rewrite (bind_ret _ _ _ _ _ Hlow). exact Hrun.
  - rewrite Htr, Hpre, app_assoc. reflexivity.
  - rewrite written_app, Hwpre. exact Hwr.
  - intros r f Hr Hf. rewrite elem_of_app. right. apply (Hev r f Hr Hf).
  - rewrite elem_of_app. right.
    destruct (Hev r0 f0 Hr0 Hf0) as [Hh _]. rewrite union_mask_diag in Hh. exact Hh.
Qed.

(** A body that raises ends the loop: what comes after is not run. *)
Lemma for_stops {A} (body : A -> M unit) pre x post w w1 e w2 :
  for_ pre body w = (Ret tt, w1) ->
  body x w1 = (Raise e, w2) ->
  for_ (pre ++ x :: post) body w = (Raise e, w2).
Proof.
  revert w. induction pre as [|y pre IH]; intros w Hpre Hx.
  - cbn in Hpre. injection Hpre as <-. cbn [app for_]. apply (bind_raise _ _ _ _ _ Hx).
  - cbn [app for_] in *. unfold bind in *.
    destruct (body y w) as [[[]|e'] w']; [|discriminate]. apply IH; assumption.
Qed.

Lemma recipe_low_no_cube t p c l o w :
  get_res_for_config kh c = Some l ->
  Forall (fun r => cube_present kh ext (files w) t c p r = false) l ->
  recipe_building_low_resolution_mask kh ext (Some t) (Some p) (Some c) o w
  = (Raise (KeyError ""), fname_world kh ext w t c p l).
Proof.
  intros Hl Habs. rewrite Forall_forall in Habs.
  rewrite (recipe_low_run kh ext t p c o l w Hl).
  assert (fname_table kh ext (files w) t c p (default default_res_lowresmask o) l
          = {["res_lowresmask" := Tag ""]}) as ->.
  { unfold fname_table, fname_scan. rewrite scan_absent by exact Habs.
    cbn [fname_dict lowest_res_tag]. rewrite lookup_empty.
    rewrite (bool_decide_eq_false_2 (is_Some None)) by (intros [? ?]; discriminate).
    rewrite andb_false_r. reflexivity. }
  reflexivity.
Qed.

Section Orchestration.

Variable ht : HandlerTemplate.

(** Without targets or without products the loop logs one error and
    stops there: no directory is made and no triple is processed. *)
Theorem loop_needs_targets_and_products make_directories w :
  get_targets ht = [] \/ get_all_products ht = [] ->
  exists msg,
    loop_products_making kh ext ht make_directories w
    = (Ret tt, World (files w) (dirs w) (trace w ++ [EvLog ERROR msg])).
Proof.
  intros H. unfold loop_products_making.
  destruct (get_targets ht) as [|x xs]; [eexists; reflexivity|].
  destruct H as [H|H]; [discriminate|]. rewrite H. eexists. reflexivity.
Qed.

(** The loop stops at the first triple without cube: with a catalog
    list and no cube of it on disk, the low-resolution recipe of that
    triple raises the key error on the empty tag; the loop raises it
    in turn, having written and removed nothing for that triple, and
    the triples after it are not processed. *)
Theorem loop_stops_at_triple_without_cube (make_directories : bool) pre t p c post l
    (w w0 w1 : world) :
  get_targets ht <> [] ->
  get_all_products ht <> [] ->
  looper ht = pre ++ (t, p, c) :: post ->
  (if make_directories then make_missing_directories ht else ret tt) w = (Ret tt, w0) ->
  for_ pre (process_triple kh ext) w0 = (Ret tt, w1) ->
  get_res_for_config kh c = Some l ->
  Forall (fun r => cube_present kh ext (files w1) t c p r = false) l ->
  exists w' evs,
    loop_products_making kh ext ht make_directories w = (Raise (KeyError ""), w')
    /\ trace w' = trace w1 ++ evs
    /\ written evs = [] /\ removed evs = []
    /\ files w' = files w1.
Proof.
  intros Ht Hp Hloop Hmk Hpre Hl Habs.
  destruct (fname_dict_ensures_product_directory t c p default_res_lowresmask w1)
    as (evs & Htr & _ & Hfiles & _ & Hwr & Hrm).
  rewrite (fname_dict_run kh ext t c p _ l w1 Hl) in Htr, Hfiles. cbn [snd] in Htr, Hfiles.
  exists (fname_world kh ext w1 t c p l), evs.
  split; [|split; [exact Htr|split; [exact Hwr|split; [exact Hrm | exact Hfiles]]]].
  unfold loop_products_making.
  rewrite bool_decide_eq_false_2 by (destruct (get_targets ht); [contradiction | discriminate]).
  rewrite bool_decide_eq_false_2
    by (destruct (get_all_products ht); [contradiction | discriminate]).
  rewrite (bind_ret _ _ _ _ _ Hmk), Hloop.
  apply (for_stops _ _ _ _ _ _ _ _ Hpre).
  unfold process_triple.
  apply (bind_raise _ _ _ _ _ (recipe_low_no_cube t p c l None w1 Hl Habs)).
Qed.

End Orchestration.

End MoreTheory.

(** ** A failure inside the all-resolutions recipe *)

Section Failure.

Context (kh : KeyHandler) (ext : Externals).

Variables (t c p : string) (lowres : ndarray bool) (ltag : string).



End Failure.

(** * The further properties on the concrete catalog *)

Lemma fname_table_keys_witness :
  exists d,
    fst (_fname_dict demo_kh demo_ext (Some "T") (Some "X") (Some "P") "" demo_world_gap)
    = Ret (Table d).
Proof.
  destruct (fname_table_keys demo_kh demo_ext "T" "X" "P" "" demo_res demo_world_gap)
    as (d & sel & H & _).
  - reflexivity.
  - exists d. exact H.
Defined.


Lemma deletion_loop_removes_exactly_old_files_witness :
  exists w',
    for_ (process_list (re_sub demo_ext "\.fits$" "" "/data/product/T/T_X_P_broad_res5p00.fits")
            default_flags)
         (delete_old default_flags) demo_world
    = (Ret tt, w').
Proof.
  destruct (deletion_loop_removes_exactly_old_files demo_ext
              "/data/product/T/T_X_P_broad_res5p00.fits" default_flags demo_world)
    as (w' & evs & H & _).
  - reflexivity.
  - exists w'. exact H.
Defined.

Lemma task_writting_products_nothing_on_witness :
  task_writting_products demo_ext demo_masked demo_masked_noise
    "/data/product/T/T_X_P_broad_res5p00.fits" demo_flags_nothing demo_world
  = (Ret tt, demo_world).
Proof.
  apply (task_writting_products_nothing_on demo_ext demo_masked demo_masked_noise
           "/data/product/T/T_X_P_broad_res5p00.fits" demo_flags_nothing demo_world).
  intros k. destruct k; reflexivity.
Defined.

Lemma task_writting_products_leaves_disabled_kind_witness :
  exists w',
    task_writting_products demo_ext demo_masked demo_masked_noise
      "/data/product/T/T_X_P_broad_res5p00.fits" demo_flags_no_moment1 demo_world
    = (Ret tt, w').
Proof.
  destruct (task_writting_products_leaves_disabled_kind demo_ext demo_masked
              demo_masked_noise "/data/product/T/T_X_P_broad_res5p00.fits"
              demo_flags_no_moment1 Moment1 demo_world) as (w' & evs & H & _).
  - reflexivity.
  - reflexivity.
  - exists w'. exact H.
Defined.


Lemma all_resolution_recipe_without_cubes_witness :
  recipe_building_all_resolution_masks demo_kh demo_ext (Some "T") (Some "P") (Some "X")
    (Some demo_lowres) (Some "20p00") demo_world_empty
  = (Ret tt, snd (_fname_dict demo_kh demo_ext (Some "T") (Some "X") (Some "P") ""
                    demo_world_empty)).
Proof.
  destruct (all_resolution_recipe_without_cubes demo_kh demo_ext "T" "X" "P" demo_lowres
              "20p00" demo_res demo_world_empty) as (evs & H & _).
  - reflexivity.
  - repeat constructor; vm_compute; discriminate.
  - repeat constructor.
  - exact H.
Defined.

Lemma process_triple_composes_witness :
  exists w', process_triple demo_kh demo_ext ("T", "P", "X") demo_world_gap = (Ret tt, w').
Proof.
  destruct (process_triple_composes demo_kh demo_ext "T" "P" "X" demo_res demo_world_gap)
    as (w' & evs & r0 & f0 & H & _).
  - reflexivity.
  - repeat constructor; vm_compute; discriminate.
  - apply Exists_cons_hd. vm_compute. reflexivity.
  - intros r r' f f' Hr Hr' Hf Hf'.
    demo_cases Hr; demo_cases Hr'; vm_compute in Hf, Hf'; try discriminate;
      injection Hf as <-; injection Hf' as <-; reflexivity.
  - intros r r' Hr Hr' _ _.
    demo_cases Hr; demo_cases Hr'; refine (bool_decide_unpack _ _); vm_compute; exact I.
  - exists w'. exact H.
Defined.

Lemma loop_needs_targets_and_products_witness :
  exists msg,
    loop_products_making demo_kh demo_ext demo_ht_no_product true demo_world
    = (Ret tt, World (files demo_world) (dirs demo_world)
                     (trace demo_world ++ [EvLog ERROR msg])).
Proof.
  apply (loop_needs_targets_and_products demo_kh demo_ext demo_ht_no_product true demo_world).
  right. reflexivity.
Defined.

Lemma loop_stops_at_triple_without_cube_witness :
  exists w',
    loop_products_making demo_kh demo_ext demo_ht true demo_world_empty
    = (Raise (KeyError ""), w').
Proof.
  destruct (loop_stops_at_triple_without_cube demo_kh demo_ext demo_ht true []
              "T" "P" "X" [("T", "P", "Y")] demo_res demo_world_empty
              (World ∅ {["/data/product"]} [EvMakedirs "/data/product"])
              (World ∅ {["/data/product"]} [EvMakedirs "/data/product"]))
    as (w' & evs & H & _).
  - discriminate.
  - discriminate.
  - reflexivity.
  - vm_compute. reflexivity.
  - reflexivity.
  - reflexivity.
  - repeat constructor.
  - exists w'. exact H.
Defined.

